(** * mac-live-subtitle: the transcript pipeline of [DeepgramTranscriber]

    A shallow embedding of [src/deepgram_transcriber.py] (the recogniser
    session, the interim/final policy of [_on_transcript], the polish
    consumer and its context window) and of the display callback
    [_on_transcription] of [main.py].

    Conventions of the embedding.
    - The instance attributes of [DeepgramTranscriber] are the fields of the
      record [transcriber]; every method takes the object and returns the
      updated object together with the list of effects it performed, in
      order.
    - [datetime.now()] is a reading of the environment.  A handler receives
      the reading as a [Clock]: the [%H:%M:%S] rendering and the POSIX
      timestamp.  The timestamp is kept in whole microseconds (the
      resolution of [datetime]); the threshold [1.0] is [1000000].
    - What the remote services answer (does the socket open, what does the
      chat completion return) is an argument of the method that asks.
    - [logger] calls are not effects of the model.
    - The registered callbacks are the application's; they are recorded as
      effects and do not raise. *)

From Stdlib Require Import ZArith List String Bool Lia DecimalString.
Import ListNotations.
Local Open Scope string_scope.
Local Open Scope Z_scope.
Local Open Scope list_scope.

(** ** Data *)

(** [@dataclass TranscriptionResult] *)
Record TranscriptionResult := mkResult {
  detected_language : string;
  original_text : string;
  chinese_translation : string;
  timestamp : string;
  is_final : bool
}.

(** The dict that [_queue_for_polish] puts on [polish_queue]. *)
Record Submission := mkSubmission {
  sub_text : string;
  sub_language : string;
  sub_timestamp : string
}.

(** One entry of [result.channel.alternatives]; [languages] is read with
    [getattr(alt, "languages", None)]. *)
Record Alternative := mkAlt {
  transcript : string;
  languages : option (list string)
}.

(** The [result] keyword argument of a Transcript event. *)
Record LiveResult := mkLive {
  alternatives : list Alternative;
  lr_is_final : bool
}.

(** A reading of [datetime.now()]. *)
Record Clock := mkClock {
  hms : string;        (* .strftime('%H:%M:%S') *)
  epoch_us : Z         (* .timestamp(), in microseconds *)
}.

(** Python exceptions, by class and message. *)
Inductive exn_class := ExceptionCls | ConnectionErrorCls | IndexErrorCls | OtherCls (name : string).

Record exn := mkExn {
  exn_cls : exn_class;
  exn_msg : string       (* str(e) *)
}.

(** The attributes of a [DeepgramTranscriber] that the methods below read
    or write.  [connection] and [main_loop] are [None] or an object: only
    their truth value is used.  The callbacks are [None] or registered. *)
Record transcriber := mkTranscriber {
  language : string;
  interim_results : bool;
  connection : bool;
  is_running : bool;
  connection_ready : bool;
  main_loop : bool;
  reconnect_attempts : Z;
  is_reconnecting : bool;
  has_transcription_callback : bool;
  has_error_callback : bool;
  recent_transcriptions : list TranscriptionResult;
  pending_text : string;
  last_translation_time : Z;
  polish_queue : list (option Submission);
  polish_task : bool
}.

(** Constants of [__init__] that no method assigns again. *)
Definition context_window : nat := 40.
Definition max_reconnect_attempts : Z := 5.
Definition reconnect_delay : Z := 2.            (* seconds *)
Definition translation_threshold : Z := 1000000. (* 1.0 s *)

(** [__init__], for the keyword arguments the model keeps. *)
Definition init (lang : string) (interim : bool) : transcriber :=
  {| language := lang;
     interim_results := interim;
     connection := false;
     is_running := false;
     connection_ready := false;
     main_loop := false;
     reconnect_attempts := 0;
     is_reconnecting := false;
     has_transcription_callback := false;
     has_error_callback := false;
     recent_transcriptions := [];
     pending_text := "";
     last_translation_time := 0;
     polish_queue := [];
     polish_task := false |}.

(** Field updates. *)
Definition set_connection (v : bool) (s : transcriber) : transcriber :=
  mkTranscriber (language s) (interim_results s) v (is_running s)
    (connection_ready s) (main_loop s) (reconnect_attempts s)
    (is_reconnecting s) (has_transcription_callback s) (has_error_callback s)
    (recent_transcriptions s) (pending_text s) (last_translation_time s)
    (polish_queue s) (polish_task s).

Definition set_is_running (v : bool) (s : transcriber) : transcriber :=
  mkTranscriber (language s) (interim_results s) (connection s) v
    (connection_ready s) (main_loop s) (reconnect_attempts s)
    (is_reconnecting s) (has_transcription_callback s) (has_error_callback s)
    (recent_transcriptions s) (pending_text s) (last_translation_time s)
    (polish_queue s) (polish_task s).

Definition set_connection_ready (v : bool) (s : transcriber) : transcriber :=
  mkTranscriber (language s) (interim_results s) (connection s) (is_running s)
    v (main_loop s) (reconnect_attempts s)
    (is_reconnecting s) (has_transcription_callback s) (has_error_callback s)
    (recent_transcriptions s) (pending_text s) (last_translation_time s)
    (polish_queue s) (polish_task s).

Definition set_main_loop (v : bool) (s : transcriber) : transcriber :=
  mkTranscriber (language s) (interim_results s) (connection s) (is_running s)
    (connection_ready s) v (reconnect_attempts s)
    (is_reconnecting s) (has_transcription_callback s) (has_error_callback s)
    (recent_transcriptions s) (pending_text s) (last_translation_time s)
    (polish_queue s) (polish_task s).

Definition set_reconnect_attempts (v : Z) (s : transcriber) : transcriber :=
  mkTranscriber (language s) (interim_results s) (connection s) (is_running s)
    (connection_ready s) (main_loop s) v
    (is_reconnecting s) (has_transcription_callback s) (has_error_callback s)
    (recent_transcriptions s) (pending_text s) (last_translation_time s)
    (polish_queue s) (polish_task s).

Definition set_is_reconnecting (v : bool) (s : transcriber) : transcriber :=
  mkTranscriber (language s) (interim_results s) (connection s) (is_running s)
    (connection_ready s) (main_loop s) (reconnect_attempts s)
    v (has_transcription_callback s) (has_error_callback s)
    (recent_transcriptions s) (pending_text s) (last_translation_time s)
    (polish_queue s) (polish_task s).

Definition set_transcription_callback (s : transcriber) : transcriber :=
  mkTranscriber (language s) (interim_results s) (connection s) (is_running s)
    (connection_ready s) (main_loop s) (reconnect_attempts s)
    (is_reconnecting s) true (has_error_callback s)
    (recent_transcriptions s) (pending_text s) (last_translation_time s)
    (polish_queue s) (polish_task s).

Definition set_error_callback (s : transcriber) : transcriber :=
  mkTranscriber (language s) (interim_results s) (connection s) (is_running s)
    (connection_ready s) (main_loop s) (reconnect_attempts s)
    (is_reconnecting s) (has_transcription_callback s) true
    (recent_transcriptions s) (pending_text s) (last_translation_time s)
    (polish_queue s) (polish_task s).

Definition set_recent_transcriptions (v : list TranscriptionResult)
    (s : transcriber) : transcriber :=
  mkTranscriber (language s) (interim_results s) (connection s) (is_running s)
    (connection_ready s) (main_loop s) (reconnect_attempts s)
    (is_reconnecting s) (has_transcription_callback s) (has_error_callback s)
    v (pending_text s) (last_translation_time s)
    (polish_queue s) (polish_task s).

Definition set_pending_text (v : string) (s : transcriber) : transcriber :=
  mkTranscriber (language s) (interim_results s) (connection s) (is_running s)
    (connection_ready s) (main_loop s) (reconnect_attempts s)
    (is_reconnecting s) (has_transcription_callback s) (has_error_callback s)
    (recent_transcriptions s) v (last_translation_time s)
    (polish_queue s) (polish_task s).

Definition set_last_translation_time (v : Z) (s : transcriber) : transcriber :=
  mkTranscriber (language s) (interim_results s) (connection s) (is_running s)
    (connection_ready s) (main_loop s) (reconnect_attempts s)
    (is_reconnecting s) (has_transcription_callback s) (has_error_callback s)
    (recent_transcriptions s) (pending_text s) v
    (polish_queue s) (polish_task s).

Definition set_polish_queue (v : list (option Submission))
    (s : transcriber) : transcriber :=
  mkTranscriber (language s) (interim_results s) (connection s) (is_running s)
    (connection_ready s) (main_loop s) (reconnect_attempts s)
    (is_reconnecting s) (has_transcription_callback s) (has_error_callback s)
    (recent_transcriptions s) (pending_text s) (last_translation_time s)
    v (polish_task s).

Definition set_polish_task (v : bool) (s : transcriber) : transcriber :=
  mkTranscriber (language s) (interim_results s) (connection s) (is_running s)
    (connection_ready s) (main_loop s) (reconnect_attempts s)
    (is_reconnecting s) (has_transcription_callback s) (has_error_callback s)
    (recent_transcriptions s) (pending_text s) (last_translation_time s)
    (polish_queue s) v.

(** ** Effects *)

(** What a method does to the outside, in the order it does it. *)
Inductive effect :=
| TranscriptionCallback (r : TranscriptionResult)  (* self._transcription_callback(r) *)
| ErrorCallback (msg : string)                     (* self._error_callback(msg) *)
| QueueForPolish (text : string) (r : LiveResult)  (* run_coroutine_threadsafe(self._queue_for_polish(text, r), main_loop) *)
| ScheduleReconnect                                (* run_coroutine_threadsafe(self._reconnect(), main_loop) *)
| Sleep (seconds : Z)                              (* await asyncio.sleep(seconds) *)
| ConnectionFinish                                 (* self.connection.finish() *)
| ConnectionCreate                                 (* self.connection = self.deepgram.listen.live.v("1") *)
| ConnectionStart                                  (* self.connection.start(options) *)
| ConnectionSend (audio : list Byte.byte)          (* self.connection.send(audio) *)
| CreatePolishTask.                                (* asyncio.create_task(self._polish_processor()) *)

(** [if self._transcription_callback: self._transcription_callback(r)] *)
Definition transcription_callback (s : transcriber) (r : TranscriptionResult)
    : list effect :=
  if has_transcription_callback s then [TranscriptionCallback r] else [].

(** [if self._error_callback: self._error_callback(msg)] *)
Definition error_callback (s : transcriber) (msg : string) : list effect :=
  if has_error_callback s then [ErrorCallback msg] else [].

(** ** The interim/final policy: [_on_transcript] *)

(** [langs[0] if langs else (self.language or "unknown")] *)
Definition detected_lang (s : transcriber) (alt : Alternative) : string :=
  match languages alt with
  | Some (l :: _) => l
  | _ => if (language s =? "")%string then "unknown" else language s
  end.

(** [_on_transcript(result=...)].  [result.channel.alternatives[0]] raises
    [IndexError] on an empty list; the handler's [except Exception] reports
    it through the error callback. *)
Definition on_transcript (clk : Clock) (result : option LiveResult)
    (s : transcriber) : transcriber * list effect :=
  match result with
  | None => (s, [])
  | Some r =>
    match alternatives r with
    | [] => (s, error_callback s ("处理转录错误: " ++ "list index out of range")%string)
    | alt :: _ =>
      let text := transcript alt in
      if (text =? "")%string then (s, [])
      else if interim_results s && negb (lr_is_final r) then
        let s1 := set_pending_text text s in
        let interim_result :=
          mkResult (detected_lang s1 alt) text "" (hms clk) false in
        let shown := transcription_callback s1 interim_result in
        let time_since_last := epoch_us clk - last_translation_time s1 in
        if time_since_last >=? translation_threshold then
          let s2 := set_last_translation_time (epoch_us clk) s1 in
          (s2, shown ++ (if main_loop s2 then [QueueForPolish text r] else []))
        else (s1, shown)
      else if lr_is_final r then
        let s1 := set_pending_text "" s in
        let s2 := set_last_translation_time (epoch_us clk) s1 in
        (s2, if main_loop s2 then [QueueForPolish text r] else [])
      else (s, [])
    end
  end.

(** [_queue_for_polish(transcript, result)], run on the main loop.  It is
    only scheduled for a [result] whose [alternatives] is not empty; on an
    empty list the coroutine raises and nothing is put. *)
Definition queue_for_polish (clk : Clock) (text : string) (r : LiveResult)
    (s : transcriber) : transcriber :=
  match alternatives r with
  | [] => s
  | alt :: _ =>
    set_polish_queue
      (polish_queue s ++ [Some (mkSubmission text (detected_lang s alt) (hms clk))]) s
  end.

(** The main loop runs the coroutines a handler scheduled. *)
Fixpoint run_scheduled (clk : Clock) (es : list effect) (s : transcriber)
    : transcriber :=
  match es with
  | [] => s
  | QueueForPolish text r :: es' => run_scheduled clk es' (queue_for_polish clk text r s)
  | _ :: es' => run_scheduled clk es' s
  end.

(** A Transcript event followed by the coroutines it scheduled. *)
Definition transcript_event (clk : Clock) (result : option LiveResult)
    (s : transcriber) : transcriber * list effect :=
  let '(s1, es) := on_transcript clk result s in
  (run_scheduled clk es s1, es).

(** ** The session: [start], [stop], [_reconnect], [send_audio] *)

(** What opening the socket does: [self.deepgram.listen.live.v("1")] may
    raise, [self.connection.start(options)] may raise or return a truth
    value. *)
Inductive open_outcome :=
| CreateRaises (e : exn)
| StartRaises (e : exn)
| StartReturns (ok : bool).

Definition opened (o : open_outcome) : bool :=
  match o with
  | StartReturns true => true
  | _ => false
  end.

(** [start()].  The third component is the exception the call raises, if
    any.  The [except] clause reports and re-raises what it caught. *)
Definition start (o : open_outcome) (s : transcriber)
    : transcriber * list effect * option exn :=
  let s1 := set_main_loop true (set_is_running true s) in
  let failed (e : exn) (s' : transcriber) (es : list effect) :=
    (s', es ++ error_callback s' ("启动失败: " ++ exn_msg e)%string, Some e) in
  match o with
  | CreateRaises e => failed e s1 [ConnectionCreate]
  | StartRaises e =>
      failed e (set_connection true s1) [ConnectionCreate; ConnectionStart]
  | StartReturns true =>
      (set_polish_task true (set_connection true s1),
       [ConnectionCreate; ConnectionStart; CreatePolishTask], None)
  | StartReturns false =>
      failed (mkExn ExceptionCls "Failed to connect to Deepgram")
             (set_connection true s1) [ConnectionCreate; ConnectionStart]
  end.

(** [stop()] up to [await self.polish_task]: the flags, the socket, and the
    sentinel [None] put on the queue.  An error of [finish()] is logged and
    dropped. *)
Definition stop (s : transcriber) : transcriber * list effect :=
  let s1 := set_is_reconnecting false (set_is_running false s) in
  let '(s2, es) :=
    if connection s1 then (set_connection false s1, [ConnectionFinish])
    else (s1, []) in
  if polish_task s2
  then (set_polish_queue (polish_queue s2 ++ [None]) s2, es)
  else (s2, es).

(** Whether a coroutine has returned or is still waiting for an answer of
    the environment. *)
Inductive progress := Returned | Suspended.

(** The synthetic result of a successful reconnection. *)
Definition reconnect_result (clk : Clock) : TranscriptionResult :=
  mkResult "system" "[Reconnected]" "[重新连接成功]" (hms clk) true.

(** The [while] loop of [_reconnect].  [net] lists what the successive
    attempts to open the socket do; when it runs out the coroutine is still
    waiting.  [clk] is the reading taken on success.  An attempt is:
    count it, close the old socket, sleep, create the socket, start it. *)
Fixpoint reconnect_loop (clk : Clock) (net : list open_outcome)
    (s : transcriber) : transcriber * list effect * progress :=
  if is_running s && (reconnect_attempts s <? max_reconnect_attempts) then
    match net with
    | [] => (s, [], Suspended)
    | o :: net' =>
      let s1 := set_reconnect_attempts (reconnect_attempts s + 1) s in
      let '(s2, closing) :=
        if connection s1 then (set_connection false s1, [ConnectionFinish])
        else (s1, []) in
      let waited := closing ++ [Sleep reconnect_delay; ConnectionCreate] in
      let failed (e : exn) (s' : transcriber) (es : list effect) :=
        if reconnect_attempts s' >=? max_reconnect_attempts then
          (set_is_reconnecting false (set_is_running false s'),
           es ++ error_callback s' ("无法重新连接: " ++ exn_msg e)%string,
           Returned)
        else
          let '(s'', es', p) := reconnect_loop clk net' s' in
          (s'', es ++ es', p) in
      match o with
      | CreateRaises e => failed e s2 waited
      | StartRaises e =>
          failed e (set_connection true s2) (waited ++ [ConnectionStart])
      | StartReturns true =>
          let s3 := set_is_reconnecting false
                      (set_reconnect_attempts 0 (set_connection true s2)) in
          (s3,
           waited ++ [ConnectionStart]
             ++ transcription_callback s3 (reconnect_result clk),
           Returned)
      | StartReturns false =>
          failed (mkExn ExceptionCls "Failed to reconnect")
                 (set_connection true s2) (waited ++ [ConnectionStart])
      end
    end
  else (set_is_reconnecting false s, [], Returned).

(** [_reconnect()] *)
Definition reconnect (clk : Clock) (net : list open_outcome)
    (s : transcriber) : transcriber * list effect * progress :=
  if is_reconnecting s || negb (is_running s) then (s, [], Returned)
  else reconnect_loop clk net (set_is_reconnecting true s).

(** [send_audio(audio_data)]; [raised] is the exception of
    [self.connection.send], if it raises. *)
Definition send_audio (raised : option exn) (audio : list Byte.byte)
    (s : transcriber) : transcriber * list effect :=
  if connection s && is_running s && connection_ready s then
    match raised with
    | None => (s, [ConnectionSend audio])
    | Some e =>
        (s, ConnectionSend audio
              :: error_callback s ("发送音频错误: " ++ exn_msg e)%string)
    end
  else (s, []).

(** [_on_open] *)
Definition on_open (s : transcriber) : transcriber * list effect :=
  (set_connection_ready true s, []).

(** [_on_error] and [_on_close] have the same body. *)
Definition on_error (s : transcriber) : transcriber * list effect :=
  let s1 := set_connection_ready false s in
  if is_running s1 && main_loop s1 && negb (is_reconnecting s1)
  then (s1, [ScheduleReconnect])
  else (s1, []).

Definition on_close (s : transcriber) : transcriber * list effect :=
  on_error s.

(** ** The polish stage: [_polish_transcription], [_polish_processor] *)

(** What the chat-completion request does, as far as the code looks at it.
    The prompt is built by [_build_context] from the last five entries of
    [recent_transcriptions], which it only reads.
    - [CallRaises]: [chat.completions.create] (or reading the first choice
      of its answer) raises;
    - [JsonObject f]: the content parses to an object, [f] being its
      ['chinese_translation'] entry if it has one (the entry is taken to
      be a string, as the prompt asks);
    - [JsonOther]: the content parses to something that is not an object,
      so that [result_data.get] raises;
    - [JsonInvalid m]: [json.loads] raises [JSONDecodeError]; [m] is
      [group(1)] of the regular-expression search on the raw content, if
      it matches. *)
Inductive completion :=
| CallRaises (e : exn)
| JsonObject (field : option string)
| JsonOther
| JsonInvalid (found : option string).

(** [result_data.get('chinese_translation', '')] after the parsing step;
    [None] when control has left for the outer [except]. *)
Definition parsed_translation (c : completion) : option string :=
  match c with
  | CallRaises _ => None
  | JsonObject (Some t) => Some t
  | JsonObject None => Some ""
  | JsonOther => None
  | JsonInvalid (Some t) => Some t
  | JsonInvalid None => Some ""
  end.

(** [self.recent_transcriptions.append(result)] and the truncation to the
    last [context_window] entries. *)
Definition add_to_context (r : TranscriptionResult) (s : transcriber)
    : transcriber :=
  let l := recent_transcriptions s ++ [r] in
  if (context_window <? List.length l)%nat
  then set_recent_transcriptions (skipn (List.length l - context_window) l) s
  else set_recent_transcriptions l s.

(** [_polish_transcription(text, language, timestamp)] *)
Definition polish_transcription (c : completion) (text lang ts : string)
    (s : transcriber) : transcriber * option TranscriptionResult :=
  match parsed_translation c with
  | Some t =>
      let result := mkResult lang text t ts true in
      (add_to_context result s, Some result)
  | None => (s, Some (mkResult lang text "" ts true))
  end.

(** Where the task running [_polish_processor] stands between two runs of
    the event loop: not created, created and not yet run, inside
    [await self.polish_queue.get()], inside
    [await self._polish_transcription(...)] for an item, or finished. *)
Inductive consumer :=
| NoTask
| LoopHead
| Waiting
| InFlight (item : Submission)
| Exited.

(** [item = await self.polish_queue.get()] once the queue has something,
    up to the next [await]. *)
Definition take_item (s : transcriber) : transcriber * consumer :=
  match polish_queue s with
  | [] => (s, Waiting)
  | None :: q => (set_polish_queue q s, Exited)
  | Some item :: q => (set_polish_queue q s, InFlight item)
  end.

(** [while self.is_running:] and the body up to the next [await]. *)
Definition loop_head (s : transcriber) : transcriber * consumer :=
  if is_running s then take_item s else (s, Exited).

(** The outstanding call for [item] answers: the rest of the loop body,
    then the loop test. *)
Definition polish_complete (c : completion) (item : Submission)
    (s : transcriber) : transcriber * list effect * consumer :=
  let '(s1, result) :=
    polish_transcription c (sub_text item) (sub_language item)
      (sub_timestamp item) s in
  let shown :=
    match result with
    | Some r => transcription_callback s1 r
    | None => []
    end in
  let '(s2, st) := loop_head s1 in
  (s2, shown, st).

(** The event loop runs the task while no call is outstanding. *)
Definition consumer_wake (st : consumer) (s : transcriber)
    : transcriber * consumer :=
  match st with
  | NoTask => (s, NoTask)
  | LoopHead => loop_head s
  | Waiting => take_item s
  | InFlight item => (s, InFlight item)
  | Exited => (s, Exited)
  end.

(** The task run with nothing else in between; [answers] lists what the
    successive requests do, and the task is left in flight when the list
    runs out. *)
Fixpoint polish_run (answers : list completion) (st : consumer)
    (s : transcriber) : transcriber * list effect * consumer :=
  match st, answers with
  | InFlight item, c :: answers' =>
      let '(s1, es, st1) := polish_complete c item s in
      let '(s2, es', st2) := polish_run answers' st1 s1 in
      (s2, es ++ es', st2)
  | _, _ => (s, [], st)
  end.

(** [_polish_processor()] from where the task stands. *)
Definition polish_processor (answers : list completion) (st : consumer)
    (s : transcriber) : transcriber * list effect * consumer :=
  let '(s1, st1) := consumer_wake st s in
  polish_run answers st1 s1.

(** ** The application's callbacks ([main.py]) *)

(** The attributes of [DeepgramLiveSubtitle] that [_on_transcription]
    uses; [subtitle_display] is [None] or the window. *)
Record app := mkApp {
  subtitle_display : bool;
  last_chinese_translation : string
}.

(** [self.subtitle_display.update_subtitle(original_text, chinese_text,
    duration)], the duration in seconds. *)
Inductive display_call :=
| UpdateSubtitle (original chinese : string) (duration : Z).

(** [_on_transcription(result)] *)
Definition on_transcription (r : TranscriptionResult) (a : app)
    : app * list display_call :=
  if negb (subtitle_display a) then (a, [])
  else if is_final r && negb (chinese_translation r =? "")%string then
    (mkApp (subtitle_display a) (chinese_translation r),
     [UpdateSubtitle (original_text r) (chinese_translation r) 5])
  else if negb (is_final r) then
    (a, [UpdateSubtitle (original_text r) (last_chinese_translation a) 2])
  else (a, []).

(** [_on_error(error_msg)] of the application. *)
Definition app_on_error (msg : string) (a : app) : app * list display_call :=
  if subtitle_display a then (a, [UpdateSubtitle "Error" msg 5]) else (a, []).

(** The callbacks applied to the effects of a method, in order. *)
Fixpoint deliver (es : list effect) (a : app) : app * list display_call :=
  match es with
  | [] => (a, [])
  | TranscriptionCallback r :: es' =>
      let '(a1, d) := on_transcription r a in
      let '(a2, d') := deliver es' a1 in
      (a2, d ++ d')
  | ErrorCallback msg :: es' =>
      let '(a1, d) := app_on_error msg a in
      let '(a2, d') := deliver es' a1 in
      (a2, d ++ d')
  | _ :: es' => deliver es' a
  end.

(** ** The whole object under arbitrary events *)

(** Anything that can happen to a transcriber and its polish task. *)
Inductive event :=
| EvSetTranscriptionCallback
| EvSetErrorCallback
| EvStart (o : open_outcome)
| EvStop
| EvOpen
| EvError
| EvClose
| EvReconnect (clk : Clock) (net : list open_outcome)
| EvSendAudio (raised : option exn) (audio : list Byte.byte)
| EvTranscript (clk : Clock) (result : option LiveResult)
| EvWake
| EvAnswer (c : completion).

Definition system : Type := transcriber * consumer.

Definition step (ev : event) (sys : system) : system * list effect :=
  let '(s, st) := sys in
  match ev with
  | EvSetTranscriptionCallback => ((set_transcription_callback s, st), [])
  | EvSetErrorCallback => ((set_error_callback s, st), [])
  | EvStart o =>
      let '(s', es, raised) := start o s in
      ((s', match raised with None => LoopHead | Some _ => st end), es)
  | EvStop => let '(s', es) := stop s in ((s', st), es)
  | EvOpen => let '(s', es) := on_open s in ((s', st), es)
  | EvError => let '(s', es) := on_error s in ((s', st), es)
  | EvClose => let '(s', es) := on_close s in ((s', st), es)
  | EvReconnect clk net =>
      let '(s', es, _) := reconnect clk net s in ((s', st), es)
  | EvSendAudio raised audio =>
      let '(s', es) := send_audio raised audio s in ((s', st), es)
  | EvTranscript clk result =>
      let '(s', es) := transcript_event clk result s in ((s', st), es)
  | EvWake => let '(s', st') := consumer_wake st s in ((s', st'), [])
  | EvAnswer c =>
      match st with
      | InFlight item =>
          let '(s', es, st') := polish_complete c item s in ((s', st'), es)
      | _ => ((s, st), [])
      end
  end.

Fixpoint run (evs : list event) (sys : system) : system * list effect :=
  match evs with
  | [] => (sys, [])
  | ev :: evs' =>
      let '(sys1, es) := step ev sys in
      let '(sys2, es') := run evs' sys1 in
      (sys2, es ++ es')
  end.

(** ** Vocabulary of the statements *)

(** The dict a submission of the fragment [alt] puts on the queue. *)
Definition submission_of (clk : Clock) (s : transcriber) (alt : Alternative)
    : Submission :=
  mkSubmission (transcript alt) (detected_lang s alt) (hms clk).

(** A Transcript event is treated as final: the pending text is cleared
    and one submission joins the queue. *)
Definition treated_as_final (clk : Clock) (r : LiveResult) (s : transcriber)
    : Prop :=
  let s' := fst (transcript_event clk (Some r) s) in
  pending_text s' = "" /\
  exists sub, polish_queue s' = polish_queue s ++ [Some sub].

(** ** Sample inputs *)

Definition noon : Clock := mkClock "12:00:00" 1700000000000000.
Definition noon_300ms : Clock := mkClock "12:00:00" 1700000000300000.
Definition noon_1s : Clock := mkClock "12:00:01" 1700000001000000.

Definition fragment (text : string) (final : bool) : LiveResult :=
  mkLive [mkAlt text None] final.

(** A session as [main.py] sets it up: callbacks registered, started,
    socket open. *)
Definition setup : list event :=
  [EvSetTranscriptionCallback; EvSetErrorCallback;
   EvStart (StartReturns true); EvOpen].

Definition started (interim : bool) : system :=
  Eval vm_compute in fst (run setup (init "multi" interim, NoTask)).

(** The same after the interim fragment "hel" at noon. *)
Definition heard_hel : transcriber :=
  Eval vm_compute in
    fst (fst (step (EvTranscript noon (Some (fragment "hel" false)))
                (started true))).

(** The attempts of a reconnection, counted by the sockets created. *)
Fixpoint count_attempts (es : list effect) : nat :=
  match es with
  | [] => O
  | ConnectionCreate :: es' => S (count_attempts es')
  | _ :: es' => count_attempts es'
  end.

(** Every socket creation in [es] comes right after a sleep of
    [reconnect_delay] seconds; [prev] is the effect before [es]. *)
Fixpoint delayed (prev : option effect) (es : list effect) : bool :=
  match es with
  | [] => true
  | e :: es' =>
      match e with
      | ConnectionCreate =>
          match prev with
          | Some (Sleep d) => d =? reconnect_delay
          | _ => false
          end
      | _ => true
      end && delayed (Some e) es'
  end.

(** An attempt that does not open the socket. *)
Definition fails (o : open_outcome) : bool := negb (opened o).

Definition refused : open_outcome := StartReturns false.

(** [stop()] drains the queue: the task ends, and every submission that
    was on the queue when [stop] was called has had its final result
    passed to the callback. *)
Definition drained (answers : list completion) (sys : system) : Prop :=
  let '(s, st) := sys in
  let '(s1, _) := stop s in
  let '(_, es, st') := polish_processor answers st s1 in
  st' = Exited /\
  forall item,
    In (Some item) (polish_queue s) ->
    exists r, In (TranscriptionCallback r) es /\
              original_text r = sub_text item /\ is_final r = true.

(** A session whose consumer has the request for "first." in flight while
    "second." waits on the queue. *)
Definition busy : system :=
  Eval vm_compute in
    fst (run [EvWake;
              EvTranscript noon (Some (fragment "first." true));
              EvWake;
              EvTranscript noon_1s (Some (fragment "second." true))]
           (started true)).

Definition translated (t : string) : completion := JsonObject (Some t).

(** [start()] fails with the built-in [ConnectionError]. *)
Definition raises_connection_error (o : open_outcome) (s : transcriber)
    : Prop :=
  exists e, snd (start o s) = Some e /\ exn_cls e = ConnectionErrorCls.

(** A transcriber with both callbacks registered, not yet started. *)
Definition configured : transcriber :=
  Eval vm_compute in
    set_error_callback (set_transcription_callback (init "multi" true)).

(** A result that [_on_transcription] shows with its own translation. *)
Definition shows_translation (r : TranscriptionResult) : bool :=
  is_final r && negb (chinese_translation r =? "")%string.

(** The application once [_async_main] has shown its banner. *)
Definition app_started : app := mkApp true "实时字幕已启动".

(** The [n]-th of a series of submissions, told apart by their text. *)
Definition numbered (n : nat) : Submission :=
  mkSubmission (String (Ascii.ascii_of_nat (48 + n)) "") "en" "12:00:00".

(** A started session with 41 submissions waiting. *)
Definition backlog : transcriber :=
  Eval vm_compute in
    set_polish_queue (map (fun n => Some (numbered n)) (seq 0 41))
      (fst (started true)).

(** ** The prompt context: [_build_context] *)

(** [str(n)] for a length or an index. *)
Definition str_of_nat (n : nat) : string :=
  NilZero.string_of_uint (Nat.to_uint n).

(** The newline of the f-strings. *)
Definition nl : string := String (Ascii.ascii_of_nat 10) "".

(** [l[-n:]] for a positive [n]. *)
Definition last_n {A : Type} (n : nat) (l : list A) : list A :=
  skipn (List.length l - n) l.

(** The body of the [for i, item in enumerate(context_items, 1)] loop:
    [total] is [len(context_items)]. *)
Definition context_part (total i : nat) (item : TranscriptionResult) : string :=
  (("前" ++ str_of_nat (total - i + 1) ++ "条:")
     ++ (nl ++ "原文: " ++ original_text item)
     ++ (if (chinese_translation item =? "") then ""
         else nl ++ "翻译: " ++ chinese_translation item))%string.

Fixpoint context_parts (total i : nat) (items : list TranscriptionResult)
    : list string :=
  match items with
  | [] => []
  | item :: rest => context_part total i item :: context_parts total (S i) rest
  end.

(** [_build_context()] on the value of [recent_transcriptions]. *)
Definition build_context_of (recent : list TranscriptionResult) : string :=
  match recent with
  | [] => "这是对话的开始。"
  | _ =>
      let context_items := last_n 5 recent in
      ("参考上下文（从旧到新）:" ++ nl
         ++ String.concat (nl ++ nl)
              (context_parts (List.length context_items) 1 context_items))%string
  end.

Definition build_context (s : transcriber) : string :=
  build_context_of (recent_transcriptions s).

(** ** More vocabulary *)

(** The Transcript events of a list of fragments with the clock readings
    at which they arrive. *)
Definition transcripts (frs : list (Clock * LiveResult)) : list event :=
  map (fun fr => EvTranscript (fst fr) (Some (snd fr))) frs.

(** The results a list of effects passes to the transcription callback. *)
Fixpoint shown_results (es : list effect) : list TranscriptionResult :=
  match es with
  | [] => []
  | TranscriptionCallback r :: es' => r :: shown_results es'
  | _ :: es' => shown_results es'
  end.

(** The session after reconnection gave up and [start()] was called
    again with success. *)
Definition restarted : transcriber :=
  Eval vm_compute in
    fst (fst (run [EvError; EvReconnect noon (repeat refused 5);
                   EvStart (StartReturns true); EvOpen]
                (started true))).

(** ** Audio capture ([audio_capture.py]) *)

Module Capture.

(** An entry of [sd.query_devices()], for the keys the code reads. *)
Record Device := mkDevice {
  name : string;
  max_input_channels : Z;
  max_output_channels : Z
}.

(** The attributes of a [MacSystemAudioCapture]; [capture_thread] is
    [None] or a thread, the callback is [None] or registered, a queued
    chunk is the [bytes] of one block. *)
Record capture := mkCapture {
  device_name : string;
  is_recording : bool;
  device_id : option nat;
  audio_queue : list (list Byte.byte);
  has_audio_callback : bool;
  capture_thread : bool
}.

(** [__init__(device_name=...)] *)
Definition init (target : string) : capture :=
  mkCapture target false None [] false false.

(** [needle in hay] on strings. *)
Fixpoint contains (needle hay : string) : bool :=
  String.prefix needle hay ||
  match hay with
  | EmptyString => false
  | String _ hay' => contains needle hay'
  end.

Section Lower.

(** [str.lower], the library's. *)
Variable lower : string -> string.

(** The test of the first loop of [find_device_id]. *)
Definition is_target (c : capture) (d : Device) : bool :=
  contains (lower (device_name c)) (lower (name d))
  && (0 <? max_input_channels d).

(** The test of its second loop. *)
Definition is_blackhole (d : Device) : bool :=
  contains "blackhole" (lower (name d)) && (0 <? max_input_channels d).

(** [for idx, device in enumerate(devices): if p(device): return idx],
    counting from [idx]. *)
Fixpoint first_index (p : Device -> bool) (idx : nat) (devices : list Device)
    : option nat :=
  match devices with
  | [] => None
  | d :: rest => if p d then Some idx else first_index p (S idx) rest
  end.

(** [find_device_id()] on the list [sd.query_devices()] returned. *)
Definition find_device_id (c : capture) (devices : list Device) : option nat :=
  match first_index (is_target c) 0 devices with
  | Some idx => Some idx
  | None => first_index is_blackhole 0 devices
  end.

(** [start_capture()]; the second component is the exception raised, if
    any.  [ValueError] is [OtherCls "ValueError"]. *)
Definition start_capture (devices : list Device) (c : capture)
    : capture * option exn :=
  if is_recording c then (c, None)
  else
    let found := find_device_id c devices in
    match found with
    | None =>
        (mkCapture (device_name c) (is_recording c) None (audio_queue c)
           (has_audio_callback c) (capture_thread c),
         Some (mkExn (OtherCls "ValueError")
                 ("Audio device '" ++ device_name c ++ "' not found")%string))
    | Some idx =>
        (mkCapture (device_name c) true (Some idx) (audio_queue c)
           (has_audio_callback c) true,
         None)
    end.

End Lower.

(** [set_audio_callback(callback)] *)
Definition set_audio_callback (c : capture) : capture :=
  mkCapture (device_name c) (is_recording c) (device_id c) (audio_queue c)
    true (capture_thread c).

(** [audio_callback(indata, ...)].  [pcm] stands for
    [audio_int16.tobytes()], the block after the numeric conversion; the
    second component lists the calls of the user callback. *)
Definition audio_callback (pcm : list Byte.byte) (c : capture)
    : capture * list (list Byte.byte) :=
  if is_recording c then
    (mkCapture (device_name c) (is_recording c) (device_id c)
       (audio_queue c ++ [pcm]) (has_audio_callback c) (capture_thread c),
     if has_audio_callback c then [pcm] else [])
  else (c, []).

(** [stop_capture()] *)
Definition stop_capture (c : capture) : capture :=
  if negb (is_recording c) then c
  else mkCapture (device_name c) false (device_id c) []
         (has_audio_callback c) (capture_thread c).

(** [get_audio_data(timeout)]: the oldest chunk, or [None] when the
    queue stays empty for the timeout. *)
Definition get_audio_data (c : capture)
    : capture * option (list Byte.byte) :=
  match audio_queue c with
  | [] => (c, None)
  | chunk :: rest =>
      (mkCapture (device_name c) (is_recording c) (device_id c) rest
         (has_audio_callback c) (capture_thread c),
       Some chunk)
  end.

(** The blocks the device delivers, one [audio_callback] each. *)
Fixpoint feed (blocks : list (list Byte.byte)) (c : capture) : capture :=
  match blocks with
  | [] => c
  | pcm :: rest => feed rest (fst (audio_callback pcm c))
  end.

(** [n] calls of [get_audio_data], and what they returned. *)
Fixpoint take (n : nat) (c : capture)
    : capture * list (option (list Byte.byte)) :=
  match n with
  | O => (c, [])
  | S n' =>
      let '(c1, got) := get_audio_data c in
      let '(c2, more) := take n' c1 in
      (c2, got :: more)
  end.

End Capture.

(** One turn of [_audio_processing_loop] of [main.py]: take a chunk from
    the capture and, if it is not empty, hand it to [send_audio];
    [raised] is what [connection.send] raises, if it does. *)
Definition forward_audio (raised : option exn) (c : Capture.capture)
    (s : transcriber) : Capture.capture * transcriber * list effect :=
  match Capture.get_audio_data c with
  | (c1, Some (b :: chunk)) =>
      let '(s1, es) := send_audio raised (b :: chunk) s in (c1, s1, es)
  | (c1, _) => (c1, s, [])
  end.

(** ASCII lower case, for the examples. *)
Fixpoint ascii_lower (s : string) : string :=
  match s with
  | EmptyString => EmptyString
  | String ch s' =>
      let n := Ascii.nat_of_ascii ch in
      String (if ((65 <=? n) && (n <=? 90))%nat
              then Ascii.ascii_of_nat (n + 32) else ch)
             (ascii_lower s')
  end.

Definition sample_devices : list Capture.Device :=
  [Capture.mkDevice "MacBook Pro Microphone" 1 0;
   Capture.mkDevice "BlackHole 16ch" 16 16;
   Capture.mkDevice "BlackHole 2ch" 2 2;
   Capture.mkDevice "MacBook Pro Speakers" 0 2].

(** What can happen to a capture object, and a sequence of it. *)
Inductive capture_event :=
| CapSetCallback
| CapStart (devices : list Capture.Device)
| CapBlock (pcm : list Byte.byte)
| CapGet
| CapStop.

Definition capture_step (lower : string -> string) (ev : capture_event)
    (c : Capture.capture) : Capture.capture :=
  match ev with
  | CapSetCallback => Capture.set_audio_callback c
  | CapStart devices => fst (Capture.start_capture lower devices c)
  | CapBlock pcm => fst (Capture.audio_callback pcm c)
  | CapGet => fst (Capture.get_audio_data c)
  | CapStop => Capture.stop_capture c
  end.

Definition capture_run (lower : string -> string) (evs : list capture_event)
    (c : Capture.capture) : Capture.capture :=
  fold_left (fun c ev => capture_step lower ev c) evs c.

(** ** The subtitle window ([subtitle_display.py]) *)

Module Display.

(** [@dataclass SubtitleUpdate]; the duration in seconds. *)
Record SubtitleUpdate := mkUpdate {
  original_text : string;
  chinese_text : string;
  duration : Z
}.

(** The attributes of a [SubtitleDisplay] that [update_subtitle] and
    [_update_window_position] use. *)
Record display := mkDisplay {
  window_width : Z;
  window_height : Z;
  position_y_offset : Z;
  is_running : bool;
  update_queue : list SubtitleUpdate
}.

Section Strip.

(** [str.strip], the library's. *)
Variable strip : string -> string.

(** [update_subtitle(original_text, chinese_text, duration)] *)
Definition update_subtitle (original chinese : string) (seconds : Z)
    (d : display) : display :=
  if negb (is_running d) then d
  else
    let original := strip original in
    let chinese := strip chinese in
    if (original =? "")%string && (chinese =? "")%string then d
    else
      mkDisplay (window_width d) (window_height d) (position_y_offset d)
        (is_running d)
        (update_queue d ++ [mkUpdate original chinese seconds]).

End Strip.

(** [str(n)] for an integer. *)
Definition str_of_Z (n : Z) : string := NilZero.string_of_int (Z.to_int n).

(** The [x] and [y] of [_update_window_position()] for a screen of the
    given size ([winfo_screenwidth()], [winfo_screenheight()]). *)
Definition window_position (screen_width screen_height : Z) (d : display)
    : Z * Z :=
  ((screen_width - window_width d) / 2,
   screen_height - window_height d - position_y_offset d).

(** The string it passes to [self.root.geometry]. *)
Definition geometry (screen_width screen_height : Z) (d : display) : string :=
  let '(x, y) := window_position screen_width screen_height d in
  (str_of_Z (window_width d) ++ "x" ++ str_of_Z (window_height d)
     ++ "+" ++ str_of_Z x ++ "+" ++ str_of_Z y)%string.

End Display.

(** The window receiving the [update_subtitle] calls of the application's
    callbacks, in order. *)
Definition show (strip : string -> string) (calls : list display_call)
    (d : Display.display) : Display.display :=
  fold_left
    (fun d call =>
       match call with
       | UpdateSubtitle original chinese seconds =>
           Display.update_subtitle strip original chinese seconds d
       end)
    calls d.

(** What a call asks to show, once stripped, and whether that is blank. *)
Definition stripped (strip : string -> string) (call : display_call)
    : Display.SubtitleUpdate :=
  match call with
  | UpdateSubtitle original chinese seconds =>
      Display.mkUpdate (strip original) (strip chinese) seconds
  end.

Definition blank (u : Display.SubtitleUpdate) : bool :=
  (Display.original_text u =? "")%string && (Display.chinese_text u =? "")%string.

(** ** Keys and clients ([main.py], [DeepgramTranscriber.__init__]) *)

Module Config.

(** The [polish] and [deepgram] sections of the configuration; a key is
    absent or holds a value of the type the code expects. *)
Record polish_section := mkPolish {
  pc_model : option string;
  pc_api_key_env : option string;
  pc_base_url : option string
}.

Record deepgram_section := mkDeepgram {
  dg_model : option string;
  dg_language : option string;
  dg_interim_results : option bool;
  dg_polish : option polish_section
}.

(** [d.get(key, default)] *)
Definition get {A : Type} (entry : option A) (default : A) : A :=
  match entry with
  | Some v => v
  | None => default
  end.

(** What [_load_api_keys] stores on the application. *)
Record keys := mkKeys {
  api_key : string;
  polish_api_key : option string;
  polish_base_url : string;
  polish_model : string
}.

(** The truth value of an optional string: [None] and [""] are false. *)
Definition truthy (v : option string) : bool :=
  match v with
  | Some s => negb (s =? "")%string
  | None => false
  end.

(** [_load_api_keys()]; [getenv] is [os.getenv] after [load_dotenv],
    [deepgram] is [self.config.get('deepgram', {})] with an absent section
    as [None].  [ValueError] is [OtherCls "ValueError"]. *)
Definition load_api_keys (getenv : string -> option string)
    (deepgram : option deepgram_section) : keys + exn :=
  let deepgram_api_key := getenv "DEEPGRAM_API_KEY" in
  if negb (truthy deepgram_api_key) then
    inr (mkExn (OtherCls "ValueError")
           "Please set DEEPGRAM_API_KEY in .env file for Deepgram transcription")
  else
    let polish :=
      match deepgram with
      | Some dg => get (dg_polish dg) (mkPolish None None None)
      | None => mkPolish None None None
      end in
    let polish_api_key_env := get (pc_api_key_env polish) "OPENROUTER_API_KEY" in
    inl (mkKeys (get deepgram_api_key "")
           (getenv polish_api_key_env)
           (get (pc_base_url polish) "https://openrouter.ai/api/v1")
           (get (pc_model polish) "google/gemini-2.5-flash")).

(** The arguments of [openai.Client]: [base_url] is [None] when it is not
    passed or passed as [None]. *)
Record client := mkClient {
  client_api_key : string;
  client_base_url : option string
}.

(** [polish_api_key or api_key] *)
Definition key_or (polish_api_key : option string) (api_key : string)
    : string :=
  match polish_api_key with
  | Some k => if (k =? "")%string then api_key else k
  | None => api_key
  end.

(** The polish client built by [DeepgramTranscriber.__init__]. *)
Definition polish_client (api_key : string)
    (polish_api_key polish_base_url : option string) : client :=
  if truthy polish_base_url || truthy polish_api_key then
    mkClient (key_or polish_api_key api_key) polish_base_url
  else
    mkClient (key_or polish_api_key api_key) None.

(** The polish client of the transcriber that [initialize()] creates
    from the keys: it passes
    [polish_base_url if self.polish_api_key else None]. *)
Definition initialize_polish_client (k : keys) : client :=
  polish_client (api_key k) (polish_api_key k)
    (if truthy (polish_api_key k) then Some (polish_base_url k) else None).

(** The transcriber of [initialize()], for the arguments the model of
    the transcriber keeps. *)
Definition initialize_transcriber (deepgram : option deepgram_section)
    : transcriber :=
  match deepgram with
  | Some dg => init (get (dg_language dg) "multi") (get (dg_interim_results dg) true)
  | None => init "multi" true
  end.

(** The [deepgram] section of [_get_default_config()]. *)
Definition default_deepgram : deepgram_section :=
  mkDeepgram (Some "nova-3") (Some "multi") (Some true)
    (Some (mkPolish (Some "google/gemini-2.5-flash")
             (Some "OPENROUTER_API_KEY")
             (Some "https://openrouter.ai/api/v1"))).

End Config.

(** An environment with only the Deepgram key. *)
Definition only_deepgram_key (name : string) : option string :=
  if (name =? "DEEPGRAM_API_KEY")%string then Some "dg-key" else None.

(** An entry of the polish queue that may be there: a submission with a
    text, or the sentinel where [sentinel] allows it. *)
Definition entry_ok (sentinel : bool) (entry : option Submission) : Prop :=
  match entry with
  | Some item => sub_text item <> ""
  | None => sentinel = true
  end.

(** The same for the whole queue and for the submission in flight. *)
Definition queue_ok (sentinel : bool) (sys : system) : Prop :=
  Forall (entry_ok sentinel) (polish_queue (fst sys)) /\
  match snd sys with
  | InFlight item => sub_text item <> ""
  | _ => True
  end.

(** The [except] clause of [_capture_loop]: the input stream failed, and
    the thread clears [is_recording] before it re-raises. *)
Definition capture_loop_failed (c : Capture.capture) : Capture.capture :=
  Capture.mkCapture (Capture.device_name c) false (Capture.device_id c)
    (Capture.audio_queue c) (Capture.has_audio_callback c)
    (Capture.capture_thread c).

(** * Properties *)

(** ** A fact about lists *)

Lemma app_nonempty_neq {A : Type} (l : list A) (x : A) : l ++ [x] <> l.
Proof.
  intro H. apply (f_equal (@List.length A)) in H.
  rewrite List.length_app in H. simpl in H. lia.
Qed.

(** ** The interim/final policy *)

Section Policy.

Variables (clk : Clock) (r : LiveResult) (alt : Alternative)
          (rest : list Alternative) (s : transcriber).
Hypothesis Hloop : main_loop s = true.
Hypothesis Halt : alternatives r = alt :: rest.

Let submission_of := submission_of clk s alt.

Lemma final_branch :
  transcript alt <> "" -> lr_is_final r = true ->
  transcript_event clk (Some r) s =
    (set_polish_queue (polish_queue s ++ [Some submission_of])
       (set_last_translation_time (epoch_us clk) (set_pending_text "" s)),
     [QueueForPolish (transcript alt) r]).
Proof.
  intros Htext Hfin.
  unfold transcript_event, on_transcript. rewrite Halt.
  apply String.eqb_neq in Htext. rewrite Htext, Hfin.
  rewrite Bool.andb_false_r. simpl. rewrite Hloop. simpl.
  unfold queue_for_polish. rewrite Halt. reflexivity.
Qed.

Lemma empty_skipped :
  transcript alt = "" -> transcript_event clk (Some r) s = (s, []).
Proof.
  intros Htext. unfold transcript_event, on_transcript. rewrite Halt.
  apply String.eqb_eq in Htext. rewrite Htext. reflexivity.
Qed.

Lemma nonfinal_ignored_without_interim :
  interim_results s = false -> lr_is_final r = false ->
  transcript_event clk (Some r) s = (s, []).
Proof.
  intros Hint Hfin. unfold transcript_event, on_transcript. rewrite Halt.
  rewrite Hint, Hfin. simpl. destruct (transcript alt =? "")%string; reflexivity.
Qed.

Lemma interim_branch_due :
  transcript alt <> "" -> interim_results s = true -> lr_is_final r = false ->
  translation_threshold <= epoch_us clk - last_translation_time s ->
  transcript_event clk (Some r) s =
    (set_polish_queue (polish_queue s ++ [Some submission_of])
       (set_last_translation_time (epoch_us clk)
          (set_pending_text (transcript alt) s)),
     transcription_callback s
       (mkResult (detected_lang s alt) (transcript alt) "" (hms clk) false)
       ++ [QueueForPolish (transcript alt) r]).
Proof.
  intros Htext Hint Hfin Hdue.
  unfold transcript_event, on_transcript. rewrite Halt.
  apply String.eqb_neq in Htext. rewrite Htext, Hint, Hfin. simpl.
  replace (epoch_us clk - last_translation_time s >=? translation_threshold)
    with true by (symmetry; apply Z.geb_le; lia).
  rewrite Hloop. unfold transcription_callback. simpl.
  destruct (has_transcription_callback s); simpl;
    unfold queue_for_polish; rewrite Halt; reflexivity.
Qed.

Lemma interim_branch_throttled :
  transcript alt <> "" -> interim_results s = true -> lr_is_final r = false ->
  epoch_us clk - last_translation_time s < translation_threshold ->
  transcript_event clk (Some r) s =
    (set_pending_text (transcript alt) s,
     transcription_callback s
       (mkResult (detected_lang s alt) (transcript alt) "" (hms clk) false)).
Proof.
  intros Htext Hint Hfin Hearly.
  unfold transcript_event, on_transcript. rewrite Halt.
  apply String.eqb_neq in Htext. rewrite Htext, Hint, Hfin. simpl.
  replace (epoch_us clk - last_translation_time s >=? translation_threshold)
    with false by (symmetry; rewrite Z.geb_leb; apply Z.leb_gt; lia).
  unfold transcription_callback. cbn [has_transcription_callback set_pending_text].
  destruct (has_transcription_callback s); reflexivity.
Qed.

End Policy.

(** C1 (as stated, refuted).  A final fragment with empty text is not
    treated as final: the pending text stays and nothing is submitted.
    Neither is a non-final fragment that arrives while interim mode is
    disabled. *)
Lemma final_empty_not_treated_as_final :
  (lr_is_final (fragment "" true) = true /\
   ~ treated_as_final noon_300ms (fragment "" true) heard_hel) /\
  (interim_results (fst (started false)) = false /\
   ~ treated_as_final noon (fragment "hello" false) (fst (started false))).
Proof.
  split; split; try reflexivity.
  - intros [Hpending _]. vm_compute in Hpending. discriminate.
  - intros [_ [sub Hq]]. vm_compute in Hq. discriminate.
Qed.

(** C1 (amended).  In a started session, a final fragment with non-empty
    text clears the pending text, records the time and puts its submission
    on the queue, whatever the time of the last submission and whether
    interim mode is on or off.  A fragment with empty text is skipped, and
    so is a non-final fragment when interim mode is off: neither changes
    the object or has an effect. *)
Theorem final_fragment_submitted :
  forall clk r alt rest s,
    main_loop s = true ->
    alternatives r = alt :: rest ->
    let s' := fst (transcript_event clk (Some r) s) in
    (transcript alt <> "" -> lr_is_final r = true ->
       pending_text s' = "" /\
       last_translation_time s' = epoch_us clk /\
       polish_queue s' = polish_queue s ++ [Some (submission_of clk s alt)]) /\
    (transcript alt = "" -> transcript_event clk (Some r) s = (s, [])) /\
    (interim_results s = false -> lr_is_final r = false ->
       transcript_event clk (Some r) s = (s, [])).
Proof.
  intros clk r alt rest s Hloop Halt s'. subst s'. repeat split.
  - rewrite (final_branch clk r alt rest s Hloop Halt); auto.
  - rewrite (final_branch clk r alt rest s Hloop Halt); auto.
  - rewrite (final_branch clk r alt rest s Hloop Halt); auto.
  - now apply empty_skipped with (alt := alt) (rest := rest).
  - now apply nonfinal_ignored_without_interim with (alt := alt) (rest := rest).
Qed.

Lemma final_fragment_submitted_witness :
  pending_text
    (fst (transcript_event noon_300ms (Some (fragment "hello world." true))
            heard_hel)) = "" /\
  polish_queue
    (fst (transcript_event noon_300ms (Some (fragment "hello world." true))
            heard_hel))
  = polish_queue heard_hel
      ++ [Some (mkSubmission "hello world." "multi" "12:00:00")].
Proof.
  destruct (final_fragment_submitted noon_300ms (fragment "hello world." true)
              (mkAlt "hello world." None) [] heard_hel
              eq_refl eq_refl) as [Hfinal _].
  destruct Hfinal as [Hp [_ Hq]]; [discriminate | reflexivity | ].
  split; [exact Hp | exact Hq].
Defined.

(** C2.  In a started session, an interim fragment (non-empty text,
    interim mode on) is put on the polish queue exactly when at least
    1.0 s separates the reading of the clock from
    [last_translation_time]; when it is submitted the time is recorded,
    when it is not the recorded time stays.  A final fragment is submitted
    and recorded whatever the elapsed time. *)
Theorem throttle_policy :
  forall clk r alt rest s,
    main_loop s = true ->
    alternatives r = alt :: rest ->
    transcript alt <> "" ->
    let s' := fst (transcript_event clk (Some r) s) in
    let submitted :=
      polish_queue s' = polish_queue s ++ [Some (submission_of clk s alt)] in
    let elapsed := epoch_us clk - last_translation_time s in
    (interim_results s = true -> lr_is_final r = false ->
       (submitted <-> translation_threshold <= elapsed) /\
       (polish_queue s' = polish_queue s <-> elapsed < translation_threshold) /\
       (submitted -> last_translation_time s' = epoch_us clk) /\
       (polish_queue s' = polish_queue s ->
          last_translation_time s' = last_translation_time s)) /\
    (lr_is_final r = true ->
       submitted /\ last_translation_time s' = epoch_us clk).
Proof.
  intros clk r alt rest s Hloop Halt Htext s' submitted elapsed.
  subst s' submitted elapsed. split.
  - intros Hint Hfin.
    destruct (Z_lt_le_dec (epoch_us clk - last_translation_time s)
                translation_threshold) as [Hearly | Hdue].
    + rewrite (interim_branch_throttled clk r alt rest s Halt Htext Hint Hfin Hearly).
      simpl. repeat split; intros; try lia; try reflexivity.
      * exfalso. symmetry in H. now apply app_nonempty_neq in H.
      * exfalso. symmetry in H. now apply app_nonempty_neq in H.
    + rewrite (interim_branch_due clk r alt rest s Hloop Halt Htext Hint Hfin Hdue).
      simpl. repeat split; intros; try lia; try reflexivity.
      * exfalso. now apply app_nonempty_neq in H.
      * exfalso. now apply app_nonempty_neq in H.
  - intros Hfin.
    rewrite (final_branch clk r alt rest s Hloop Halt Htext Hfin).
    simpl. split; reflexivity.
Qed.

Lemma throttle_policy_witness :
  polish_queue
    (fst (transcript_event noon_300ms (Some (fragment "hello world" false))
            heard_hel))
  = polish_queue heard_hel.
Proof.
  destruct (throttle_policy noon_300ms (fragment "hello world" false)
              (mkAlt "hello world" None) [] heard_hel
              eq_refl eq_refl) as [Hinterim _].
  - discriminate.
  - destruct Hinterim as [_ [Hthrottled _]]; [reflexivity | reflexivity | ].
    apply Hthrottled. vm_compute. reflexivity.
Defined.

(** The scenario "hel", "hello world" (interim) and "hello world."
    (final) within 0.3 s: the first interim fragment and the final one are
    submitted, the second interim fragment is throttled. *)
Example three_fragments_two_submissions :
  polish_queue
    (fst (fst (run [EvTranscript noon (Some (fragment "hel" false));
                    EvTranscript noon_300ms (Some (fragment "hello world" false));
                    EvTranscript noon_300ms (Some (fragment "hello world." true))]
                 (started true))))
  = [Some (mkSubmission "hel" "multi" "12:00:00");
     Some (mkSubmission "hello world." "multi" "12:00:00")].
Proof. vm_compute. reflexivity. Qed.

(** ** Reconnection *)

Lemma count_attempts_app (a b : list effect) :
  count_attempts (a ++ b) = (count_attempts a + count_attempts b)%nat.
Proof.
  induction a as [| e a IH]; simpl; [reflexivity |].
  destruct e; simpl; rewrite IH; reflexivity.
Qed.

Lemma delayed_app (p : option effect) (a b : list effect) :
  delayed p a = true -> (forall q, delayed q b = true) ->
  delayed p (a ++ b) = true.
Proof.
  revert p. induction a as [| e a IH]; intros p Ha Hb; simpl.
  - apply Hb.
  - simpl in Ha. apply Bool.andb_true_iff in Ha as [He Ha].
    rewrite He. simpl. now apply IH.
Qed.

Lemma count_error_callback (s : transcriber) (msg : string) :
  count_attempts (error_callback s msg) = O.
Proof. unfold error_callback. destruct (has_error_callback s); reflexivity. Qed.

Lemma delayed_error_callback (s : transcriber) (msg : string) q :
  delayed q (error_callback s msg) = true.
Proof. unfold error_callback. destruct (has_error_callback s); reflexivity. Qed.

(** One failing attempt of the loop: what it leaves and how the loop goes
    on. *)
Lemma reconnect_loop_fail (clk : Clock) (o : open_outcome)
    (net : list open_outcome) (s : transcriber) :
  is_running s = true ->
  reconnect_attempts s < max_reconnect_attempts ->
  fails o = true ->
  exists s1 es1 e,
    is_running s1 = true /\
    reconnect_attempts s1 = reconnect_attempts s + 1 /\
    has_error_callback s1 = has_error_callback s /\
    has_transcription_callback s1 = has_transcription_callback s /\
    count_attempts es1 = 1%nat /\
    (forall q, delayed q es1 = true) /\
    reconnect_loop clk (o :: net) s =
      if reconnect_attempts s1 >=? max_reconnect_attempts then
        (set_is_reconnecting false (set_is_running false s1),
         es1 ++ error_callback s1 ("无法重新连接: " ++ exn_msg e)%string,
         Returned)
      else
        let '(s2, es2, p) := reconnect_loop clk net s1 in
        (s2, es1 ++ es2, p).
Proof.
  intros Hrun Hlt Hfail.
  assert (Hcond : is_running s && (reconnect_attempts s <? max_reconnect_attempts) = true).
  { rewrite Hrun. simpl. apply Z.ltb_lt. exact Hlt. }
  destruct o as [e | e | [|]]; try discriminate Hfail.
  - destruct (connection s) eqn:Hc.
    + exists (set_connection false (set_reconnect_attempts (reconnect_attempts s + 1) s)),
        [ConnectionFinish; Sleep reconnect_delay; ConnectionCreate], e.
      repeat split; try assumption; try reflexivity.
      simpl. rewrite Hcond. simpl. rewrite Hc. reflexivity.
    + exists (set_reconnect_attempts (reconnect_attempts s + 1) s),
        [Sleep reconnect_delay; ConnectionCreate], e.
      repeat split; try assumption; try reflexivity.
      simpl. rewrite Hcond. simpl. rewrite Hc. reflexivity.
  - destruct (connection s) eqn:Hc.
    + exists (set_connection true (set_connection false
               (set_reconnect_attempts (reconnect_attempts s + 1) s))),
        [ConnectionFinish; Sleep reconnect_delay; ConnectionCreate; ConnectionStart], e.
      repeat split; try assumption; try reflexivity.
      simpl. rewrite Hcond. simpl. rewrite Hc. reflexivity.
    + exists (set_connection true
               (set_reconnect_attempts (reconnect_attempts s + 1) s)),
        [Sleep reconnect_delay; ConnectionCreate; ConnectionStart], e.
      repeat split; try assumption; try reflexivity.
      simpl. rewrite Hcond. simpl. rewrite Hc. reflexivity.
  - destruct (connection s) eqn:Hc.
    + exists (set_connection true (set_connection false
               (set_reconnect_attempts (reconnect_attempts s + 1) s))),
        [ConnectionFinish; Sleep reconnect_delay; ConnectionCreate; ConnectionStart],
        (mkExn ExceptionCls "Failed to reconnect").
      repeat split; try assumption; try reflexivity.
      simpl. rewrite Hcond. simpl. rewrite Hc. reflexivity.
    + exists (set_connection true
               (set_reconnect_attempts (reconnect_attempts s + 1) s)),
        [Sleep reconnect_delay; ConnectionCreate; ConnectionStart],
        (mkExn ExceptionCls "Failed to reconnect").
      repeat split; try assumption; try reflexivity.
      simpl. rewrite Hcond. simpl. rewrite Hc. reflexivity.
Qed.

(** One opening attempt of the loop. *)
Lemma reconnect_loop_open (clk : Clock) (net : list open_outcome)
    (s : transcriber) :
  is_running s = true ->
  reconnect_attempts s < max_reconnect_attempts ->
  exists s1 es1,
    is_running s1 = true /\ reconnect_attempts s1 = 0 /\
    is_reconnecting s1 = false /\ connection s1 = true /\
    has_transcription_callback s1 = has_transcription_callback s /\
    count_attempts es1 = 1%nat /\
    (forall q, delayed q es1 = true) /\
    reconnect_loop clk (StartReturns true :: net) s =
      (s1, es1 ++ transcription_callback s1 (reconnect_result clk), Returned).
Proof.
  intros Hrun Hlt.
  assert (Hcond : is_running s && (reconnect_attempts s <? max_reconnect_attempts) = true).
  { rewrite Hrun. simpl. apply Z.ltb_lt. exact Hlt. }
  destruct (connection s) eqn:Hc.
  - exists (set_is_reconnecting false (set_reconnect_attempts 0
             (set_connection true (set_connection false
                (set_reconnect_attempts (reconnect_attempts s + 1) s))))),
      [ConnectionFinish; Sleep reconnect_delay; ConnectionCreate; ConnectionStart].
    repeat split; try assumption; try reflexivity.
    simpl. rewrite Hcond. simpl. rewrite Hc. reflexivity.
  - exists (set_is_reconnecting false (set_reconnect_attempts 0
             (set_connection true
                (set_reconnect_attempts (reconnect_attempts s + 1) s)))),
      [Sleep reconnect_delay; ConnectionCreate; ConnectionStart].
    repeat split; try assumption; try reflexivity.
    simpl. rewrite Hcond. simpl. rewrite Hc. reflexivity.
Qed.

Lemma count_transcription_callback (s : transcriber) (r : TranscriptionResult) :
  count_attempts (transcription_callback s r) = O.
Proof.
  unfold transcription_callback.
  destruct (has_transcription_callback s); reflexivity.
Qed.

Lemma delayed_transcription_callback (s : transcriber) (r : TranscriptionResult) q :
  delayed q (transcription_callback s r) = true.
Proof.
  unfold transcription_callback.
  destruct (has_transcription_callback s); reflexivity.
Qed.

Lemma reconnect_loop_done (clk : Clock) (net : list open_outcome)
    (s : transcriber) :
  is_running s && (reconnect_attempts s <? max_reconnect_attempts) = false ->
  reconnect_loop clk net s = (set_is_reconnecting false s, [], Returned).
Proof. intros H. destruct net; simpl; rewrite H; reflexivity. Qed.

(** The loop never makes more attempts than the counter leaves room for,
    and it sleeps before each. *)
Lemma reconnect_loop_bounded (clk : Clock) (net : list open_outcome) :
  forall s s' es p,
    reconnect_loop clk net s = (s', es, p) ->
    (Z.of_nat (count_attempts es)
       <= Z.max 0 (max_reconnect_attempts - reconnect_attempts s)) /\
    (forall q, delayed q es = true).
Proof.
  induction net as [| o net IH]; intros s s' es p Hloop.
  - simpl in Hloop.
    destruct (is_running s && (reconnect_attempts s <? max_reconnect_attempts));
      inversion Hloop; subst; simpl; split; try lia; reflexivity.
  - destruct (is_running s && (reconnect_attempts s <? max_reconnect_attempts))
      eqn:Hcond.
    + apply Bool.andb_true_iff in Hcond as [Hrun Hlt]. apply Z.ltb_lt in Hlt.
      destruct (fails o) eqn:Hf.
      * destruct (reconnect_loop_fail clk o net s Hrun Hlt Hf)
          as (s1 & es1 & e & _ & Hatt & _ & _ & Hcount & Hdel & Heq).
        rewrite Heq in Hloop.
        destruct (reconnect_attempts s1 >=? max_reconnect_attempts).
        -- inversion Hloop; subst. split.
           ++ rewrite count_attempts_app, Hcount, count_error_callback. lia.
           ++ intros q. apply delayed_app; [apply Hdel |].
              intros q'. apply delayed_error_callback.
        -- destruct (reconnect_loop clk net s1) as [[s2 es2] p2] eqn:Hrec.
           inversion Hloop; subst.
           destruct (IH _ _ _ _ Hrec) as [Hb Hd]. split.
           ++ rewrite count_attempts_app, Hcount. lia.
           ++ intros q. apply delayed_app; [apply Hdel | exact Hd].
      * assert (o = StartReturns true) as ->.
        { destruct o as [e | e | [|]]; try discriminate Hf; reflexivity. }
        destruct (reconnect_loop_open clk net s Hrun Hlt)
          as (s1 & es1 & _ & _ & _ & _ & _ & Hcount & Hdel & Heq).
        rewrite Heq in Hloop. inversion Hloop; subst. split.
        -- rewrite count_attempts_app, Hcount, count_transcription_callback. lia.
        -- intros q. apply delayed_app; [apply Hdel |].
           intros q'. apply delayed_transcription_callback.
    + rewrite (reconnect_loop_done clk (o :: net) s Hcond) in Hloop.
      inversion Hloop; subst. simpl. split; [lia | reflexivity].
Qed.

(** As many failures as the counter leaves room for exhaust the loop. *)
Lemma reconnect_loop_exhausted (clk : Clock) (failing rest : list open_outcome) :
  forall s,
    is_running s = true ->
    forallb fails failing = true ->
    failing <> [] ->
    Z.of_nat (List.length failing)
      = max_reconnect_attempts - reconnect_attempts s ->
    exists s' es msg,
      reconnect_loop clk (failing ++ rest) s = (s', es ++ error_callback s' msg, Returned) /\
      is_running s' = false /\ is_reconnecting s' = false /\
      reconnect_attempts s' = max_reconnect_attempts /\
      has_error_callback s' = has_error_callback s /\
      count_attempts es = List.length failing.
Proof.
  induction failing as [| o failing IH]; intros s Hrun Hall Hne Hlen;
    [contradiction |].
  simpl in Hall. apply Bool.andb_true_iff in Hall as [Hf Hall].
  cbn [List.length] in Hlen.
  assert (Hlt : reconnect_attempts s < max_reconnect_attempts) by lia.
  destruct (reconnect_loop_fail clk o (failing ++ rest) s Hrun Hlt Hf)
    as (s1 & es1 & e & Hrun1 & Hatt & Herr & _ & Hcount & _ & Heq).
  rewrite <- List.app_comm_cons, Heq.
  destruct (reconnect_attempts s1 >=? max_reconnect_attempts) eqn:Hge.
  - apply Z.geb_le in Hge.
    assert (failing = []) as ->.
    { destruct failing; [reflexivity | cbn [List.length] in Hlen; lia]. }
    exists (set_is_reconnecting false (set_is_running false s1)), es1,
      ("无法重新连接: " ++ exn_msg e)%string.
    repeat split; try assumption; try reflexivity.
    cbn [List.length] in Hlen. cbn [reconnect_attempts set_is_reconnecting set_is_running]. lia.
  - rewrite Z.geb_leb in Hge. apply Z.leb_gt in Hge.
    assert (Hne' : failing <> []).
    { intros ->. cbn [List.length] in Hlen. lia. }
    destruct (IH s1 Hrun1 Hall Hne') as (s' & es & msg & Hloop & H1 & H2 & H3 & H4 & H5).
    { lia. }
    rewrite Hloop. exists s', (es1 ++ es), msg.
    repeat split; try assumption.
    + rewrite List.app_assoc. reflexivity.
    + congruence.
    + rewrite count_attempts_app, Hcount, H5. reflexivity.
Qed.

(** Failures short of the bound followed by an opening end in success. *)
Lemma reconnect_loop_recovers (clk : Clock) (failing rest : list open_outcome) :
  forall s,
    is_running s = true ->
    forallb fails failing = true ->
    reconnect_attempts s + Z.of_nat (List.length failing)
      < max_reconnect_attempts ->
    exists s' es,
      reconnect_loop clk (failing ++ StartReturns true :: rest) s
        = (s', es ++ transcription_callback s' (reconnect_result clk), Returned) /\
      is_running s' = true /\ is_reconnecting s' = false /\
      reconnect_attempts s' = 0 /\ connection s' = true /\
      has_transcription_callback s' = has_transcription_callback s /\
      count_attempts es = S (List.length failing).
Proof.
  induction failing as [| o failing IH]; intros s Hrun Hall Hlen.
  - cbn [List.length] in Hlen.
    destruct (reconnect_loop_open clk rest s Hrun)
      as (s1 & es1 & H1 & H2 & H3 & H4 & H5 & H6 & _ & Heq); [lia |].
    exists s1, es1. rewrite List.app_nil_l, Heq. repeat split; assumption.
  - simpl in Hall. apply Bool.andb_true_iff in Hall as [Hf Hall].
    cbn [List.length] in Hlen.
    assert (Hlt : reconnect_attempts s < max_reconnect_attempts) by lia.
    destruct (reconnect_loop_fail clk o (failing ++ StartReturns true :: rest)
                s Hrun Hlt Hf)
      as (s1 & es1 & e & Hrun1 & Hatt & _ & Hcb & Hcount & _ & Heq).
    rewrite <- List.app_comm_cons, Heq.
    replace (reconnect_attempts s1 >=? max_reconnect_attempts) with false
      by (symmetry; rewrite Z.geb_leb; apply Z.leb_gt; lia).
    destruct (IH s1 Hrun1 Hall) as (s' & es & Hloop & H1 & H2 & H3 & H4 & H5 & H6).
    { lia. }
    rewrite Hloop. exists s', (es1 ++ es).
    repeat split; try assumption.
    + rewrite List.app_assoc. reflexivity.
    + congruence.
    + rewrite count_attempts_app, Hcount, H6. reflexivity.
Qed.

(** Once the session is not running, [send_audio] does nothing. *)
Lemma send_audio_not_running raised audio (s : transcriber) :
  is_running s = false -> send_audio raised audio s = (s, []).
Proof.
  intros H. unfold send_audio. rewrite H, Bool.andb_false_r. reflexivity.
Qed.

(** C3.  A reconnection entered by a running session with a fresh counter
    makes at most 5 attempts, each socket creation coming right after a
    sleep of 2 seconds.  If the first 5 attempts all fail the coroutine
    returns after exactly 5 attempts with the session marked not running
    and the error callback called, and from then on [send_audio] does
    nothing.  If an attempt opens the socket after fewer than 5 failures,
    the counter is back to 0, the session is still running and the
    synthetic "[Reconnected]" result has gone to the transcription
    callback. *)
Theorem reconnection_bounded :
  forall clk net s s' es p,
    is_running s = true ->
    is_reconnecting s = false ->
    reconnect_attempts s = 0 ->
    has_transcription_callback s = true ->
    has_error_callback s = true ->
    reconnect clk net s = (s', es, p) ->
    (max_reconnect_attempts = 5 /\ reconnect_delay = 2 /\
     (count_attempts es <= 5)%nat /\ delayed None es = true) /\
    (forall failing rest,
        net = failing ++ rest ->
        List.length failing = 5%nat ->
        forallb fails failing = true ->
        p = Returned /\ count_attempts es = 5%nat /\
        is_running s' = false /\
        (exists msg, In (ErrorCallback msg) es) /\
        (forall raised audio, send_audio raised audio s' = (s', []))) /\
    (forall failing rest,
        net = failing ++ StartReturns true :: rest ->
        (List.length failing < 5)%nat ->
        forallb fails failing = true ->
        p = Returned /\ count_attempts es = S (List.length failing) /\
        is_running s' = true /\ reconnect_attempts s' = 0 /\
        In (TranscriptionCallback (reconnect_result clk)) es).
Proof.
  intros clk net s s' es p Hrun Hrec Hatt Htc Hec Heq.
  unfold reconnect in Heq. rewrite Hrec, Hrun in Heq. simpl in Heq.
  set (s0 := set_is_reconnecting true s) in Heq.
  assert (Hrun0 : is_running s0 = true) by exact Hrun.
  assert (Hatt0 : reconnect_attempts s0 = 0) by exact Hatt.
  split; [| split].
  - destruct (reconnect_loop_bounded clk net s0 s' es p Heq) as [Hb Hd].
    rewrite Hatt0 in Hb. unfold max_reconnect_attempts in Hb.
    repeat split; [lia | apply Hd].
  - intros failing rest -> Hlen Hall.
    destruct (reconnect_loop_exhausted clk failing rest s0 Hrun0 Hall)
      as (s1 & es1 & msg & Hloop & Hstopped & _ & _ & Herr & Hcount).
    { intros ->. discriminate Hlen. }
    { rewrite Hlen, Hatt0. reflexivity. }
    rewrite Hloop in Heq. inversion Heq; subst s1 es p. clear Heq.
    repeat split.
    + rewrite count_attempts_app, count_error_callback, Hcount. lia.
    + exact Hstopped.
    + exists msg. apply List.in_or_app. right. unfold error_callback.
      replace (has_error_callback s') with true
        by (rewrite Herr; symmetry; exact Hec).
      left. reflexivity.
    + intros raised audio. now apply send_audio_not_running.
  - intros failing rest -> Hlen Hall.
    destruct (reconnect_loop_recovers clk failing rest s0 Hrun0 Hall)
      as (s1 & es1 & Hloop & Hstill & _ & Hzero & _ & Hcb & Hcount).
    { rewrite Hatt0. unfold max_reconnect_attempts. lia. }
    rewrite Hloop in Heq. inversion Heq; subst s1 es p. clear Heq.
    repeat split.
    + rewrite count_attempts_app, count_transcription_callback, Hcount. lia.
    + exact Hstill.
    + exact Hzero.
    + apply List.in_or_app. right. unfold transcription_callback.
      replace (has_transcription_callback s') with true
        by (rewrite Hcb; symmetry; exact Htc).
      left. reflexivity.
Qed.

Lemma reconnection_bounded_witness :
  is_running
    (fst (fst (reconnect noon (repeat refused 5) (fst (started true)))))
  = false.
Proof.
  destruct (reconnect noon (repeat refused 5) (fst (started true)))
    as [[s' es] p] eqn:Hout.
  destruct (reconnection_bounded noon (repeat refused 5) (fst (started true))
              s' es p eq_refl eq_refl eq_refl eq_refl eq_refl Hout)
    as [_ [Hexhausted _]].
  destruct (Hexhausted (repeat refused 5) [] eq_refl eq_refl eq_refl)
    as [_ [_ [Hstopped _]]].
  exact Hstopped.
Defined.

(** ** The polish stage *)

(** Whatever the request does, [_polish_transcription] returns a final
    result for the submitted text. *)
Lemma polish_transcription_result (c : completion) (text lang ts : string)
    (s : transcriber) :
  exists r,
    snd (polish_transcription c text lang ts s) = Some r /\
    is_final r = true /\ original_text r = text /\
    detected_language r = lang /\ timestamp r = ts.
Proof.
  unfold polish_transcription.
  destruct (parsed_translation c) as [t |]; simpl; eexists;
    repeat split; reflexivity.
Qed.

(** [loop_head] only ever touches the queue. *)
Lemma loop_head_recent (s : transcriber) :
  recent_transcriptions (fst (loop_head s)) = recent_transcriptions s.
Proof.
  unfold loop_head, take_item.
  destruct (is_running s); [| reflexivity].
  destruct (polish_queue s) as [| [item |] q]; reflexivity.
Qed.

(** C4.  When the request to the polishing service raises (or handling
    its answer does), [_polish_transcription] leaves the context window
    alone and returns a result with the submitted text, an empty
    translation and [is_final] set; and whatever the request does, the
    consumer passes exactly one result, final and carrying the submitted
    text, to the registered callback for the submission. *)
Theorem polish_failure_still_emits :
  forall item s,
    has_transcription_callback s = true ->
    (forall c,
        parsed_translation c = None ->
        polish_transcription c (sub_text item) (sub_language item)
          (sub_timestamp item) s
        = (s, Some (mkResult (sub_language item) (sub_text item) ""
                      (sub_timestamp item) true))) /\
    (forall e, parsed_translation (CallRaises e) = None) /\
    (forall c,
        exists r,
          snd (fst (polish_complete c item s)) = [TranscriptionCallback r] /\
          is_final r = true /\ original_text r = sub_text item /\
          (parsed_translation c = None -> chinese_translation r = "")).
Proof.
  intros item s Hcb. repeat split.
  - intros c Hc. unfold polish_transcription. rewrite Hc. reflexivity.
  - intros c. unfold polish_complete, polish_transcription.
    destruct (parsed_translation c) as [t |] eqn:Hc.
    + destruct (loop_head (add_to_context _ s)) as [s2 st] eqn:Hl.
      eexists. simpl. unfold transcription_callback.
      replace (has_transcription_callback (add_to_context
                 (mkResult (sub_language item) (sub_text item) t
                    (sub_timestamp item) true) s))
        with true.
      * repeat split. intros H. discriminate H.
      * unfold add_to_context.
        destruct (context_window <? _)%nat; simpl; symmetry; exact Hcb.
    + destruct (loop_head s) as [s2 st] eqn:Hl.
      eexists. simpl. unfold transcription_callback. rewrite Hcb.
      repeat split.
Qed.

Lemma polish_failure_still_emits_witness :
  polish_transcription
    (CallRaises (mkExn (OtherCls "APIConnectionError") "Connection error."))
    "hello world." "en" "12:00:00" (fst (started true))
  = (fst (started true),
     Some (mkResult "en" "hello world." "" "12:00:00" true)).
Proof.
  destruct (polish_failure_still_emits
              (mkSubmission "hello world." "en" "12:00:00")
              (fst (started true)) eq_refl) as [Hfails _].
  exact (Hfails
           (CallRaises (mkExn (OtherCls "APIConnectionError") "Connection error."))
           eq_refl).
Defined.

(** ** The context window *)

Lemma add_to_context_bounded (r : TranscriptionResult) (s : transcriber) :
  (List.length (recent_transcriptions (add_to_context r s)) <= context_window)%nat.
Proof.
  unfold add_to_context.
  destruct (context_window <? _)%nat eqn:Hlt; simpl.
  - apply Nat.ltb_lt in Hlt. rewrite List.length_skipn. lia.
  - apply Nat.ltb_ge in Hlt. exact Hlt.
Qed.

(** The entries dropped by [add_to_context] are the oldest ones, and the
    entries kept are in the order they had. *)
Lemma add_to_context_fifo (r : TranscriptionResult) (s : transcriber) :
  exists evicted,
    recent_transcriptions s ++ [r]
      = evicted ++ recent_transcriptions (add_to_context r s) /\
    List.length evicted
      = (List.length (recent_transcriptions s) + 1 - context_window)%nat.
Proof.
  unfold add_to_context.
  set (l := recent_transcriptions s ++ [r]).
  assert (Hl : List.length l = (List.length (recent_transcriptions s) + 1)%nat).
  { unfold l. rewrite List.length_app. reflexivity. }
  destruct (context_window <? List.length l)%nat eqn:Hlt; simpl.
  - apply Nat.ltb_lt in Hlt.
    exists (firstn (List.length l - context_window) l). split.
    + symmetry. apply List.firstn_skipn.
    + rewrite List.length_firstn. lia.
  - apply Nat.ltb_ge in Hlt. exists []. split; [reflexivity |]. simpl. lia.
Qed.

(** *** Only a completed request touches the window *)

Lemma run_scheduled_recent (clk : Clock) (es : list effect) :
  forall s,
    recent_transcriptions (run_scheduled clk es s) = recent_transcriptions s.
Proof.
  induction es as [| e es IH]; intros s; [reflexivity |].
  destruct e; simpl; rewrite ?IH; try reflexivity.
  unfold queue_for_polish. destruct (alternatives r); reflexivity.
Qed.

Lemma on_transcript_recent (clk : Clock) (result : option LiveResult)
    (s : transcriber) :
  recent_transcriptions (fst (on_transcript clk result s))
  = recent_transcriptions s.
Proof.
  unfold on_transcript.
  destruct result as [r |]; [| reflexivity].
  destruct (alternatives r) as [| alt rest]; [reflexivity |].
  destruct (transcript alt =? "")%string; [reflexivity |].
  destruct (interim_results s && negb (lr_is_final r)).
  - cbn zeta.
    destruct (_ >=? translation_threshold); reflexivity.
  - destruct (lr_is_final r); reflexivity.
Qed.

Lemma transcript_event_recent (clk : Clock) (result : option LiveResult)
    (s : transcriber) :
  recent_transcriptions (fst (transcript_event clk result s))
  = recent_transcriptions s.
Proof.
  unfold transcript_event.
  pose proof (on_transcript_recent clk result s) as H.
  destruct (on_transcript clk result s) as [s1 es]. simpl in *.
  rewrite run_scheduled_recent. exact H.
Qed.

Lemma reconnect_loop_recent (clk : Clock) (net : list open_outcome) :
  forall s,
    recent_transcriptions (fst (fst (reconnect_loop clk net s)))
    = recent_transcriptions s.
Proof.
  induction net as [| o net IH]; intros s.
  - simpl. destruct (is_running s && _); reflexivity.
  - destruct (is_running s && (reconnect_attempts s <? max_reconnect_attempts))
      eqn:Hcond.
    + apply Bool.andb_true_iff in Hcond as [Hrun Hlt]. apply Z.ltb_lt in Hlt.
      destruct (fails o) eqn:Hf.
      * assert (Hframe : forall s1,
                  recent_transcriptions s1 = recent_transcriptions s ->
                  recent_transcriptions (fst (fst (reconnect_loop clk net s1)))
                  = recent_transcriptions s).
        { intros s1 H1. rewrite IH. exact H1. }
        destruct o as [e | e | [|]]; try discriminate Hf;
          simpl; rewrite Hrun; simpl;
          replace (reconnect_attempts s <? max_reconnect_attempts) with true
            by (symmetry; apply Z.ltb_lt; exact Hlt);
          destruct (connection s); simpl;
          destruct (_ >=? max_reconnect_attempts); simpl; try reflexivity;
          match goal with
          | |- context [reconnect_loop clk net ?x] =>
              specialize (Hframe x eq_refl);
              destruct (reconnect_loop clk net x) as [[s2 es2] p2]
          end; exact Hframe.
      * assert (o = StartReturns true) as ->.
        { destruct o as [e | e | [|]]; try discriminate Hf; reflexivity. }
        destruct (reconnect_loop_open clk net s Hrun Hlt)
          as (s1 & es1 & _ & _ & _ & _ & _ & _ & _ & Heq).
        simpl. rewrite Hrun. simpl.
        replace (reconnect_attempts s <? max_reconnect_attempts) with true
          by (symmetry; apply Z.ltb_lt; exact Hlt).
        destruct (connection s); reflexivity.
    + rewrite (reconnect_loop_done clk (o :: net) s Hcond). reflexivity.
Qed.

Lemma reconnect_recent (clk : Clock) (net : list open_outcome)
    (s : transcriber) :
  recent_transcriptions (fst (fst (reconnect clk net s)))
  = recent_transcriptions s.
Proof.
  unfold reconnect.
  destruct (is_reconnecting s || negb (is_running s)); [reflexivity |].
  rewrite reconnect_loop_recent. reflexivity.
Qed.

Lemma take_item_recent (s : transcriber) :
  recent_transcriptions (fst (take_item s)) = recent_transcriptions s.
Proof.
  unfold take_item. destruct (polish_queue s) as [| [item |] q]; reflexivity.
Qed.

Lemma consumer_wake_recent (st : consumer) (s : transcriber) :
  recent_transcriptions (fst (consumer_wake st s)) = recent_transcriptions s.
Proof.
  destruct st; simpl; try reflexivity.
  - apply loop_head_recent.
  - apply take_item_recent.
Qed.

Lemma polish_complete_recent (c : completion) (item : Submission)
    (s : transcriber) :
  recent_transcriptions (fst (fst (polish_complete c item s)))
  = recent_transcriptions
      (fst (polish_transcription c (sub_text item) (sub_language item)
              (sub_timestamp item) s)).
Proof.
  unfold polish_complete.
  destruct (polish_transcription _ _ _ _ s) as [s1 result].
  pose proof (loop_head_recent s1) as H.
  destruct (loop_head s1) as [s2 st]. exact H.
Qed.

(** An event either leaves the window as it was, or it is the answer to
    the request in flight, parsed to a translation, and the window gains
    that one result. *)
Lemma step_recent (ev : event) (sys : system) :
  recent_transcriptions (fst (fst (step ev sys)))
    = recent_transcriptions (fst sys) \/
  exists c item t,
    ev = EvAnswer c /\ snd sys = InFlight item /\
    parsed_translation c = Some t /\
    recent_transcriptions (fst (fst (step ev sys)))
      = recent_transcriptions
          (add_to_context
             (mkResult (sub_language item) (sub_text item) t
                (sub_timestamp item) true)
             (fst sys)).
Proof.
  destruct sys as [s st]. destruct ev; simpl.
  - left. reflexivity.
  - left. reflexivity.
  - left. destruct o as [e | e | [|]]; reflexivity.
  - left. unfold stop. simpl.
    destruct (connection s); simpl; destruct (polish_task s); reflexivity.
  - left. reflexivity.
  - left. unfold on_error. simpl.
    destruct (is_running s && main_loop s && negb (is_reconnecting s)); reflexivity.
  - left. unfold on_close, on_error. simpl.
    destruct (is_running s && main_loop s && negb (is_reconnecting s)); reflexivity.
  - left. pose proof (reconnect_recent clk net s) as H.
    destruct (reconnect clk net s) as [[s' es] p]. exact H.
  - left. unfold send_audio.
    destruct (connection s && is_running s && connection_ready s);
      [destruct raised |]; reflexivity.
  - left. pose proof (transcript_event_recent clk result s) as H.
    destruct (transcript_event clk result s) as [s' es]. exact H.
  - left. pose proof (consumer_wake_recent st s) as H.
    destruct (consumer_wake st s) as [s' st']. exact H.
  - destruct st as [| | | item |]; try (left; reflexivity).
    pose proof (polish_complete_recent c item s) as H.
    destruct (polish_complete c item s) as [[s' es] st']. simpl in H |- *.
    unfold polish_transcription in H.
    destruct (parsed_translation c) as [t |] eqn:Hc.
    + right. exists c, item, t. repeat split; assumption.
    + left. exact H.
Qed.

Lemma run_recent_bounded (evs : list event) :
  forall sys,
    (List.length (recent_transcriptions (fst sys)) <= context_window)%nat ->
    (List.length (recent_transcriptions (fst (fst (run evs sys))))
       <= context_window)%nat.
Proof.
  induction evs as [| ev evs IH]; intros sys Hsys; [exact Hsys |].
  simpl. destruct (step ev sys) as [sys1 es] eqn:Hstep.
  specialize (IH sys1).
  destruct (run evs sys1) as [sys2 es']. simpl in *. apply IH.
  destruct (step_recent ev sys) as [Hsame | (c & item & t & _ & _ & _ & Hadd)];
    rewrite Hstep in *; simpl in *.
  - rewrite Hsame. exact Hsys.
  - rewrite Hadd. apply add_to_context_bounded.
Qed.

(** C5.  From a new transcriber, after any sequence of events
    [recent_transcriptions] has at most 40 entries.  No event changes it
    except the answer to the request in flight when it parses to a
    translation, which appends the one result; appending keeps the entries
    in their order and drops from the front what exceeds 40.  When the
    request raises, the window is as it was. *)
Theorem context_window_fifo :
  (forall lang interim evs,
      (List.length
         (recent_transcriptions
            (fst (fst (run evs (init lang interim, NoTask))))) <= 40)%nat) /\
  (forall ev sys,
      recent_transcriptions (fst (fst (step ev sys)))
        = recent_transcriptions (fst sys) \/
      exists c item t,
        ev = EvAnswer c /\ snd sys = InFlight item /\
        parsed_translation c = Some t /\
        recent_transcriptions (fst (fst (step ev sys)))
          = recent_transcriptions
              (add_to_context
                 (mkResult (sub_language item) (sub_text item) t
                    (sub_timestamp item) true)
                 (fst sys))) /\
  (forall r s,
      exists evicted,
        recent_transcriptions s ++ [r]
          = evicted ++ recent_transcriptions (add_to_context r s) /\
        List.length evicted
          = (List.length (recent_transcriptions s) + 1 - 40)%nat) /\
  (forall e s st,
      recent_transcriptions
        (fst (fst (step (EvAnswer (CallRaises e)) (s, st))))
      = recent_transcriptions s).
Proof.
  repeat split.
  - intros lang interim evs.
    apply (run_recent_bounded evs (init lang interim, NoTask)).
    simpl. unfold context_window. lia.
  - apply step_recent.
  - intros r s. apply add_to_context_fifo.
  - intros e s st.
    destruct (step_recent (EvAnswer (CallRaises e)) (s, st))
      as [Hsame | (c & item' & t & Hev & _ & Hc & _)]; [exact Hsame |].
    inversion Hev; subst c. discriminate Hc.
Qed.

(** Forty-one translated submissions leave the last forty in the
    window, the first one gone. *)
Example forty_one_answers_keep_forty :
  map original_text
    (recent_transcriptions
       (fst (fst (polish_processor (repeat (translated "好") 41)
                    LoopHead backlog))))
  = map (fun n => sub_text (numbered n)) (seq 1 40).
Proof. vm_compute. reflexivity. Qed.

(** ** Results of the polish stage are final *)

(** C10.  Every result [_polish_transcription] returns, and every result
    the consumer passes to the callback, has [is_final] set.  The
    submission queued for an interim fragment that passes the throttle is
    the very submission a final fragment with the same content would
    queue, so the result shown for it cannot be told from that of a final
    fragment. *)
Theorem polish_results_always_final :
  (forall c text lang ts s r,
      snd (polish_transcription c text lang ts s) = Some r ->
      is_final r = true) /\
  (forall c item s r,
      In (TranscriptionCallback r) (snd (fst (polish_complete c item s))) ->
      is_final r = true) /\
  (forall clk alts s,
      interim_results s = true ->
      translation_threshold <= epoch_us clk - last_translation_time s ->
      polish_queue (fst (transcript_event clk (Some (mkLive alts false)) s))
      = polish_queue (fst (transcript_event clk (Some (mkLive alts true)) s))).
Proof.
  repeat split.
  - intros c text lang ts s r Hr.
    destruct (polish_transcription_result c text lang ts s)
      as (r' & Hr' & Hfinal & _).
    rewrite Hr in Hr'. inversion Hr'; subst. exact Hfinal.
  - intros c item s r Hin. unfold polish_complete in Hin.
    destruct (polish_transcription_result c (sub_text item)
                (sub_language item) (sub_timestamp item) s)
      as (r' & Hr' & Hfinal & _).
    destruct (polish_transcription c _ _ _ s) as [s1 result].
    simpl in Hr'. subst result.
    destruct (loop_head s1) as [s2 st]. simpl in Hin.
    unfold transcription_callback in Hin.
    destruct (has_transcription_callback s1); simpl in Hin.
    + destruct Hin as [Hin | []]. inversion Hin; subst. exact Hfinal.
    + contradiction.
  - intros clk alts s Hint Hdue.
    unfold transcript_event, on_transcript. cbn [alternatives lr_is_final].
    destruct alts as [| alt rest]; [reflexivity |].
    destruct (transcript alt =? "")%string; [reflexivity |].
    rewrite Hint. cbn [andb negb].
    cbn [last_translation_time set_pending_text].
    replace (epoch_us clk - last_translation_time s >=? translation_threshold)
      with true by (symmetry; apply Z.geb_le; lia).
    cbn [main_loop set_last_translation_time set_pending_text].
    unfold transcription_callback.
    cbn [has_transcription_callback set_pending_text].
    destruct (main_loop s); destruct (has_transcription_callback s);
      reflexivity.
Qed.

Lemma polish_results_always_final_witness :
  polish_queue
    (fst (transcript_event noon_1s (Some (mkLive [mkAlt "hello" None] false))
            heard_hel))
  = polish_queue
      (fst (transcript_event noon_1s (Some (mkLive [mkAlt "hello" None] true))
              heard_hel)).
Proof.
  destruct polish_results_always_final as [_ [_ Hsame]].
  apply Hsame; [reflexivity | vm_compute; discriminate].
Defined.

(** ** Shutdown *)

Lemma polish_transcription_frame (c : completion) (text lang ts : string)
    (s : transcriber) :
  let s1 := fst (polish_transcription c text lang ts s) in
  is_running s1 = is_running s /\
  polish_queue s1 = polish_queue s /\
  has_transcription_callback s1 = has_transcription_callback s.
Proof.
  unfold polish_transcription, add_to_context.
  destruct (parsed_translation c) as [t |]; simpl; [| repeat split].
  destruct (context_window <? _)%nat; repeat split.
Qed.

(** C6 (as stated, refuted).  With the request for "first." in flight and
    "second." on the queue, [stop()] does not drain it: "second." never
    reaches the callback, whatever the service would have answered. *)
Lemma stop_drops_queued_submission :
  snd busy = InFlight (mkSubmission "first." "multi" "12:00:00") /\
  polish_queue (fst busy) = [Some (mkSubmission "second." "multi" "12:00:01")] /\
  ~ drained [translated "一"; translated "二"; translated "三"] busy.
Proof.
  repeat split.
  intros [_ Hall].
  destruct (Hall (mkSubmission "second." "multi" "12:00:01")) as (r & Hin & Htext & _).
  { left. reflexivity. }
  vm_compute in Hin. destruct Hin as [Hin | []].
  inversion Hin; subst r. discriminate Htext.
Qed.

(** C6 (amended).  [stop()] clears [is_running] and then puts the
    sentinel behind whatever is on the queue.  A consumer with a request
    in flight finishes that one submission, passes its final result to the
    callback and exits at the loop test, leaving the queue as [stop] left
    it: the submissions still queued are not processed.  A consumer
    waiting on an empty queue takes the sentinel and exits. *)
Theorem stop_ends_consumer :
  forall s,
    polish_task s = true ->
    has_transcription_callback s = true ->
    let s1 := fst (stop s) in
    is_running s1 = false /\
    polish_queue s1 = polish_queue s ++ [None] /\
    (forall item c answers,
        exists s2 r,
          polish_processor (c :: answers) (InFlight item) s1
            = (s2, [TranscriptionCallback r], Exited) /\
          original_text r = sub_text item /\ is_final r = true /\
          polish_queue s2 = polish_queue s ++ [None]) /\
    (forall answers,
        polish_queue s = [] ->
        polish_processor answers Waiting s1
          = (set_polish_queue [] s1, [], Exited)).
Proof.
  intros s Htask Hcb s1.
  assert (Hrun : is_running s1 = false).
  { subst s1. unfold stop. simpl.
    destruct (connection s); simpl; rewrite Htask; reflexivity. }
  assert (Hq : polish_queue s1 = polish_queue s ++ [None]).
  { subst s1. unfold stop. simpl.
    destruct (connection s); simpl; rewrite Htask; reflexivity. }
  assert (Hcb1 : has_transcription_callback s1 = true).
  { subst s1. unfold stop. simpl.
    destruct (connection s); simpl; rewrite Htask; exact Hcb. }
  clearbody s1. repeat split; try assumption.
  - intros item c answers.
    unfold polish_processor. cbn [consumer_wake polish_run].
    unfold polish_complete.
    destruct (polish_transcription_result c (sub_text item)
                (sub_language item) (sub_timestamp item) s1)
      as (r & Hr & Hfinal & Htext & _).
    destruct (polish_transcription_frame c (sub_text item)
                (sub_language item) (sub_timestamp item) s1)
      as (Hrun' & Hq' & Hcb').
    destruct (polish_transcription c _ _ _ s1) as [s2 result].
    simpl in Hr, Hrun', Hq', Hcb'. subst result.
    unfold loop_head. rewrite Hrun', Hrun.
    unfold transcription_callback. rewrite Hcb', Hcb1.
    exists s2, r. destruct answers; simpl; repeat split; try assumption;
      rewrite Hq'; exact Hq.
  - intros answers Hempty.
    unfold polish_processor. cbn [consumer_wake]. unfold take_item.
    rewrite Hq, Hempty. simpl. destruct answers; reflexivity.
Qed.

Lemma stop_ends_consumer_witness :
  exists s2 r,
    polish_processor [translated "一"; translated "二"]
      (InFlight (mkSubmission "first." "multi" "12:00:00"))
      (fst (stop (fst busy)))
    = (s2, [TranscriptionCallback r], Exited) /\
    polish_queue s2
    = [Some (mkSubmission "second." "multi" "12:00:01"); None].
Proof.
  destruct (stop_ends_consumer (fst busy) eq_refl eq_refl)
    as [_ [_ [Hflight _]]].
  destruct (Hflight (mkSubmission "first." "multi" "12:00:00")
              (translated "一") [translated "二"])
    as (s2 & r & Hrun & _ & _ & Hq).
  exists s2, r. split; [exact Hrun | exact Hq].
Defined.

(** ** Failure of [start] *)

(** C9 (as stated, refuted).  When the socket refuses to open, the
    exception [start()] raises is a plain [Exception], not a
    [ConnectionError]. *)
Lemma start_failure_not_connection_error :
  opened refused = false /\
  snd (start refused configured)
    = Some (mkExn ExceptionCls "Failed to connect to Deepgram") /\
  ~ raises_connection_error refused configured.
Proof.
  repeat split.
  intros (e & He & Hcls). vm_compute in He. inversion He; subst e.
  discriminate Hcls.
Qed.

(** C9 (amended).  Whenever the socket cannot be opened [start()] raises:
    the exception of the SDK if the SDK raised, and otherwise a plain
    [Exception] saying "Failed to connect to Deepgram"; before raising it
    reports the failure to the error callback.  When the socket opens,
    [start()] returns. *)
Theorem start_failure_raises :
  forall o s,
    (opened o = false ->
     exists e,
       snd (start o s) = Some e /\
       e = match o with
           | CreateRaises e' | StartRaises e' => e'
           | StartReturns _ =>
               mkExn ExceptionCls "Failed to connect to Deepgram"
           end /\
       (has_error_callback s = true ->
        In (ErrorCallback ("启动失败: " ++ exn_msg e)%string)
           (snd (fst (start o s))))) /\
    (opened o = true -> snd (start o s) = None).
Proof.
  intros o s. split.
  - intros Hfail.
    destruct o as [e | e | [|]]; try discriminate Hfail;
      eexists; (split; [reflexivity | split; [reflexivity |]]);
      intros Hcb; cbv beta iota zeta delta [start fst snd];
      apply List.in_or_app; right; unfold error_callback;
      cbn [has_error_callback set_main_loop set_is_running set_connection];
      rewrite Hcb; left; reflexivity.
  - intros Hopen. destruct o as [e | e | [|]]; try discriminate Hopen.
    reflexivity.
Qed.

Lemma start_failure_raises_witness :
  exists e,
    snd (start refused configured) = Some e /\ exn_cls e = ExceptionCls.
Proof.
  destruct (start_failure_raises refused configured) as [Hfails _].
  destruct (Hfails eq_refl) as (e & Hraised & He & _).
  exists e. split; [exact Hraised | rewrite He; reflexivity].
Defined.

(** ** Interim results on the display *)

Lemma deliver_app (es1 es2 : list effect) :
  forall a,
    deliver (es1 ++ es2) a =
      let '(a1, d1) := deliver es1 a in
      let '(a2, d2) := deliver es2 a1 in
      (a2, d1 ++ d2).
Proof.
  induction es1 as [| e es1 IH]; intros a.
  - simpl. destruct (deliver es2 a). reflexivity.
  - destruct e; simpl; try apply IH.
    + destruct (on_transcription r a) as [a1 d].
      rewrite IH. destruct (deliver es1 a1) as [a2 d'].
      destruct (deliver es2 a2) as [a3 d'']. rewrite List.app_assoc. reflexivity.
    + destruct (app_on_error msg a) as [a1 d].
      rewrite IH. destruct (deliver es1 a1) as [a2 d'].
      destruct (deliver es2 a2) as [a3 d'']. rewrite List.app_assoc. reflexivity.
Qed.

Lemma on_transcription_display (r : TranscriptionResult) (a : app) :
  subtitle_display (fst (on_transcription r a)) = subtitle_display a.
Proof.
  unfold on_transcription.
  destruct (negb (subtitle_display a)); [reflexivity |].
  destruct (is_final r && _); [reflexivity |].
  destruct (negb (is_final r)); reflexivity.
Qed.

Lemma app_on_error_same (msg : string) (a : app) :
  fst (app_on_error msg a) = a.
Proof. unfold app_on_error. destruct (subtitle_display a); reflexivity. Qed.

Lemma deliver_display (es : list effect) :
  forall a, subtitle_display (fst (deliver es a)) = subtitle_display a.
Proof.
  induction es as [| e es IH]; intros a; [reflexivity |].
  destruct e; simpl; try apply IH.
  - pose proof (on_transcription_display r a) as H.
    destruct (on_transcription r a) as [a1 d].
    specialize (IH a1). destruct (deliver es a1) as [a2 d']. simpl in *.
    congruence.
  - pose proof (app_on_error_same msg a) as H.
    destruct (app_on_error msg a) as [a1 d].
    specialize (IH a1). destruct (deliver es a1) as [a2 d']. simpl in *.
    congruence.
Qed.

(** A result that is not shown with its own translation leaves
    [last_chinese_translation] alone. *)
Lemma on_transcription_keeps (r : TranscriptionResult) (a : app) :
  shows_translation r = false ->
  last_chinese_translation (fst (on_transcription r a))
  = last_chinese_translation a.
Proof.
  intros Hr. unfold on_transcription. unfold shows_translation in Hr.
  rewrite Hr.
  destruct (negb (subtitle_display a)); [reflexivity |].
  destruct (negb (is_final r)); reflexivity.
Qed.

Lemma deliver_keeps_translation (es : list effect) :
  forall a,
    (forall r, In (TranscriptionCallback r) es -> shows_translation r = false) ->
    last_chinese_translation (fst (deliver es a)) = last_chinese_translation a.
Proof.
  induction es as [| e es IH]; intros a Hnone; [reflexivity |].
  assert (Hrest : forall r, In (TranscriptionCallback r) es ->
                            shows_translation r = false).
  { intros r Hin. apply Hnone. right. exact Hin. }
  destruct e; simpl; try (apply IH; exact Hrest).
  - assert (Hr : shows_translation r = false) by (apply Hnone; left; reflexivity).
    pose proof (on_transcription_keeps r a Hr) as H.
    destruct (on_transcription r a) as [a1 d].
    specialize (IH a1 Hrest). destruct (deliver es a1) as [a2 d']. simpl in *.
    congruence.
  - pose proof (app_on_error_same msg a) as H.
    destruct (app_on_error msg a) as [a1 d].
    specialize (IH a1 Hrest). destruct (deliver es a1) as [a2 d']. simpl in *.
    congruence.
Qed.

(** A result shown with its own translation becomes the last known. *)
Lemma on_transcription_records (r : TranscriptionResult) (a : app) :
  subtitle_display a = true -> shows_translation r = true ->
  last_chinese_translation (fst (on_transcription r a))
  = chinese_translation r.
Proof.
  intros Ha Hr. unfold on_transcription. unfold shows_translation in Hr.
  rewrite Ha, Hr. reflexivity.
Qed.

(** C7.  While interim mode is on, an interim fragment with text makes
    [_on_transcript] call the transcription callback first of all, with a
    result marked not final whose own translation is empty.  The
    application shows it for 2 seconds next to
    [last_chinese_translation], which it leaves unchanged.  That value is
    never computed for the interim fragment: it is what the application
    held before, and after any deliveries it is the translation of the last
    final result delivered with a non-empty translation (or what the
    application started with, when there was none). *)
Theorem interim_carries_last_known :
  forall clk r alt rest s a,
    interim_results s = true ->
    has_transcription_callback s = true ->
    subtitle_display a = true ->
    alternatives r = alt :: rest ->
    transcript alt <> "" ->
    lr_is_final r = false ->
    let interim_result :=
      mkResult (detected_lang s alt) (transcript alt) "" (hms clk) false in
    (exists scheduled,
        snd (on_transcript clk (Some r) s)
          = TranscriptionCallback interim_result :: scheduled /\
        forall a', deliver scheduled a' = (a', [])) /\
    deliver (snd (on_transcript clk (Some r) s)) a
      = (a, [UpdateSubtitle (transcript alt) (last_chinese_translation a) 2]) /\
    (forall es a0,
        subtitle_display a0 = true ->
        ((forall r', In (TranscriptionCallback r') es ->
                     shows_translation r' = false) ->
         last_chinese_translation (fst (deliver es a0))
         = last_chinese_translation a0) /\
        (forall es1 r' es2,
            es = es1 ++ TranscriptionCallback r' :: es2 ->
            shows_translation r' = true ->
            (forall r'', In (TranscriptionCallback r'') es2 ->
                         shows_translation r'' = false) ->
            last_chinese_translation (fst (deliver es a0))
            = chinese_translation r')).
Proof.
  intros clk r alt rest s a Hint Hcb Hdisp Halt Htext Hfin interim_result.
  assert (Heff : exists scheduled,
             snd (on_transcript clk (Some r) s)
               = TranscriptionCallback interim_result :: scheduled /\
             forall a', deliver scheduled a' = (a', [])).
  { unfold on_transcript. rewrite Halt.
    apply String.eqb_neq in Htext. rewrite Htext, Hint, Hfin.
    cbn [andb negb]. cbv zeta.
    unfold transcription_callback.
    cbn [has_transcription_callback set_pending_text]. rewrite Hcb.
    cbn [language detected_lang set_pending_text].
    destruct (_ >=? translation_threshold).
    - cbn [snd main_loop set_last_translation_time set_pending_text].
      destruct (main_loop s).
      + eexists. split; [reflexivity |]. intros a'. reflexivity.
      + eexists. split; [reflexivity |]. intros a'. reflexivity.
    - eexists. split; [reflexivity |]. intros a'. reflexivity. }
  split; [exact Heff |]. split.
  - destruct Heff as (scheduled & Heq & Hnone). rewrite Heq.
    cbn [deliver]. unfold on_transcription. rewrite Hdisp.
    cbn [negb is_final interim_result andb original_text].
    rewrite Hnone. reflexivity.
  - intros es a0 Ha0. split.
    + apply deliver_keeps_translation.
    + intros es1 r' es2 -> Hshown Hlater.
      rewrite deliver_app.
      pose proof (deliver_display es1 a0) as Hd1.
      destruct (deliver es1 a0) as [a1 d1]. simpl in Hd1.
      cbn [deliver].
      pose proof (on_transcription_records r' a1) as Hrec.
      destruct (on_transcription r' a1) as [a2 d2]. simpl in Hrec.
      pose proof (deliver_keeps_translation es2 a2 Hlater) as Hkeep.
      destruct (deliver es2 a2) as [a3 d3]. simpl in *.
      rewrite Hkeep. apply Hrec; congruence.
Qed.

Lemma interim_carries_last_known_witness :
  deliver
    (snd (on_transcript noon_300ms (Some (fragment "hello world" false))
            heard_hel))
    app_started
  = (app_started, [UpdateSubtitle "hello world" "实时字幕已启动" 2]).
Proof.
  destruct (interim_carries_last_known noon_300ms
              (fragment "hello world" false) (mkAlt "hello world" None) []
              heard_hel app_started eq_refl eq_refl eq_refl eq_refl)
    as [_ [Hshown _]].
  - discriminate.
  - reflexivity.
  - exact Hshown.
Defined.

(** * Further properties of the transcriber *)

(** ** Transcript events *)

(** X1.  A Transcript event leaves the session flags, the counter and the
    context window alone, and it never removes anything from the polish
    queue: the queue is as before, or it has one more submission at its
    end (never a sentinel). *)
Theorem transcript_event_only_appends :
  forall clk result s,
    let s' := fst (transcript_event clk result s) in
    (is_running s' = is_running s /\
     connection s' = connection s /\
     connection_ready s' = connection_ready s /\
     reconnect_attempts s' = reconnect_attempts s /\
     is_reconnecting s' = is_reconnecting s /\
     interim_results s' = interim_results s /\
     recent_transcriptions s' = recent_transcriptions s) /\
    (polish_queue s' = polish_queue s \/
     exists sub, polish_queue s' = polish_queue s ++ [Some sub]).
Proof.
  intros clk result s s'. subst s'.
  unfold transcript_event, on_transcript.
  destruct result as [r |]; [| repeat split; left; reflexivity].
  destruct (alternatives r) as [| alt rest] eqn:Halt.
  - unfold error_callback. destruct (has_error_callback s);
      repeat split; left; reflexivity.
  - destruct (transcript alt =? "")%string;
      [repeat split; left; reflexivity |].
    destruct s as [lang interim conn running ready loop attempts recon
                   tcb ecb recent pending last queue task].
    unfold transcription_callback.
    cbn -[Z.geb Z.sub translation_threshold].
    destruct interim, (lr_is_final r); cbn -[Z.geb Z.sub translation_threshold];
      try (destruct (_ >=? translation_threshold));
      destruct loop, tcb; cbn; unfold queue_for_polish; rewrite ?Halt; cbn;
        repeat split; eauto.
Qed.

(** One throttled fragment: interim mode, not final, less than the
    threshold after the last submission. *)
Lemma throttled_event (clk : Clock) (r : LiveResult) (s : transcriber) :
  interim_results s = true ->
  lr_is_final r = false ->
  epoch_us clk - last_translation_time s < translation_threshold ->
  let s' := fst (transcript_event clk (Some r) s) in
  polish_queue s' = polish_queue s /\
  last_translation_time s' = last_translation_time s /\
  interim_results s' = true.
Proof.
  intros Hint Hfin Hearly. unfold transcript_event, on_transcript.
  destruct (alternatives r) as [| alt rest] eqn:Halt.
  - unfold error_callback. destruct (has_error_callback s); repeat split;
      assumption.
  - destruct (transcript alt =? "")%string; [repeat split; assumption |].
    rewrite Hint, Hfin. cbn [andb negb]. cbv zeta.
    cbn [last_translation_time set_pending_text].
    replace (epoch_us clk - last_translation_time s >=? translation_threshold)
      with false by (symmetry; rewrite Z.geb_leb; apply Z.leb_gt; lia).
    unfold transcription_callback.
    cbn [has_transcription_callback set_pending_text].
    destruct (has_transcription_callback s); repeat split; assumption.
Qed.

(** X2.  However many interim fragments arrive less than 1.0 s after the
    last submission, none of them is submitted: the polish queue and the
    recorded time stay as they were. *)
Theorem interim_burst_throttled :
  forall frs s st,
    interim_results s = true ->
    (forall fr, In fr frs ->
       lr_is_final (snd fr) = false /\
       epoch_us (fst fr) - last_translation_time s < translation_threshold) ->
    let s' := fst (fst (run (transcripts frs) (s, st))) in
    polish_queue s' = polish_queue s /\
    last_translation_time s' = last_translation_time s.
Proof.
  induction frs as [| [clk r] frs IH]; intros s st Hint Hall;
    [split; reflexivity |].
  destruct (Hall (clk, r) (or_introl eq_refl)) as [Hfin Hearly].
  simpl in Hfin, Hearly.
  destruct (throttled_event clk r s Hint Hfin Hearly) as (Hq & Ht & Hi).
  cbn [transcripts map run step fst snd].
  destruct (transcript_event clk (Some r) s) as [s1 es1]. simpl in Hq, Ht, Hi.
  specialize (IH s1 st Hi).
  fold (transcripts frs).
  destruct (run (transcripts frs) (s1, st)) as [[s2 st2] es2].
  simpl in IH |- *.
  destruct IH as [Hq2 Ht2].
  - intros fr Hin. destruct (Hall fr (or_intror Hin)) as [Hf He].
    split; [exact Hf | rewrite Ht; exact He].
  - split; congruence.
Qed.

Lemma interim_burst_throttled_witness :
  polish_queue
    (fst (fst (run (transcripts
                      [(noon_300ms, fragment "hello" false);
                       (noon_300ms, fragment "hello wor" false);
                       (noon_300ms, fragment "hello world" false)])
                 (heard_hel, Waiting))))
  = polish_queue heard_hel.
Proof.
  apply (interim_burst_throttled
           [(noon_300ms, fragment "hello" false);
            (noon_300ms, fragment "hello wor" false);
            (noon_300ms, fragment "hello world" false)]
           heard_hel Waiting eq_refl).
  intros fr [<- | [<- | [<- | []]]]; split; reflexivity.
Defined.

(** ** The consumer and its queue *)

Lemma polish_transcription_reads (c : completion) (text lang ts : string)
    (s : transcriber) :
  let s1 := fst (polish_transcription c text lang ts s) in
  is_running s1 = is_running s /\
  polish_queue s1 = polish_queue s /\
  has_transcription_callback s1 = has_transcription_callback s /\
  reconnect_attempts s1 = reconnect_attempts s.
Proof.
  unfold polish_transcription, add_to_context.
  destruct (parsed_translation c) as [t |]; simpl; [| repeat split].
  destruct (context_window <? _)%nat; repeat split.
Qed.

(** A running consumer with a request in flight works through the
    submissions queued behind it, in order, as long as answers come. *)
Lemma polish_run_in_order (items : list Submission) :
  forall item answers tail s,
    is_running s = true ->
    has_transcription_callback s = true ->
    polish_queue s = map Some items ++ tail ->
    (List.length items < List.length answers)%nat ->
    (tail = [] \/ exists rest, tail = None :: rest) ->
    exists s' rs,
      polish_run answers (InFlight item) s
        = (s', map TranscriptionCallback rs,
           match tail with [] => Waiting | _ => Exited end) /\
      polish_queue s' = List.tl tail /\
      is_running s' = true /\
      map original_text rs = map sub_text (item :: items) /\
      map timestamp rs = map sub_timestamp (item :: items) /\
      Forall (fun r => is_final r = true) rs.
Proof.
  induction items as [| next items IH];
    intros item answers tail s Hrun Hcb Hq Hlen Htail;
    (destruct answers as [| c answers]; [simpl in Hlen; lia |]);
    cbn [polish_run]; unfold polish_complete;
    destruct (polish_transcription_result c (sub_text item)
                (sub_language item) (sub_timestamp item) s)
      as (r & Hr & Hfinal & Htext & _ & Hts);
    destruct (polish_transcription_reads c (sub_text item)
                (sub_language item) (sub_timestamp item) s)
      as (Hrun1 & Hq1 & Hcb1 & _);
    destruct (polish_transcription c _ _ _ s) as [s1 result];
    simpl in Hr, Hrun1, Hq1, Hcb1; subst result;
    unfold transcription_callback; rewrite Hcb1, Hcb;
    unfold loop_head, take_item; rewrite Hrun1, Hrun, Hq1, Hq.
  - simpl map. rewrite List.app_nil_l.
    assert (Hone : Forall (fun r => is_final r = true) [r])
      by (constructor; [exact Hfinal | constructor]).
    destruct Htail as [-> | [rest ->]]; simpl.
    + exists s1, [r]. simpl in Hq.
      destruct answers; simpl; repeat split; try congruence; exact Hone.
    + exists (set_polish_queue rest s1), [r].
      destruct answers; simpl; repeat split; try congruence; exact Hone.
  - simpl map. rewrite <- List.app_comm_cons.
    destruct (IH next answers tail
                (set_polish_queue (map Some items ++ tail) s1))
      as (s' & rs & Heq & Hq' & Hrun' & Htexts & Htss & Hfinals).
    + simpl. congruence.
    + simpl. congruence.
    + reflexivity.
    + simpl in Hlen. lia.
    + exact Htail.
    + rewrite Heq. exists s', (r :: rs). simpl.
      repeat split; try assumption.
      * simpl in Htexts. congruence.
      * simpl in Htss. congruence.
      * constructor; assumption.
Qed.

(** X3.  A running consumer that finds submissions on the queue (and no
    sentinel) processes all of them in the order they were queued: it
    passes one final result per submission to the callback, in that order
    and with the submission's text and timestamp, leaves the queue empty
    and goes back to waiting. *)
Theorem consumer_processes_in_order :
  forall items answers st s,
    (st = LoopHead \/ st = Waiting) ->
    is_running s = true ->
    has_transcription_callback s = true ->
    polish_queue s = map Some items ->
    (List.length items <= List.length answers)%nat ->
    exists s' rs,
      polish_processor answers st s
        = (s', map TranscriptionCallback rs, Waiting) /\
      polish_queue s' = [] /\
      map original_text rs = map sub_text items /\
      map timestamp rs = map sub_timestamp items /\
      Forall (fun r => is_final r = true) rs.
Proof.
  intros items answers st s Hst Hrun Hcb Hq Hlen.
  assert (Hwake : consumer_wake st s = take_item s).
  { destruct Hst as [-> | ->]; simpl; [| reflexivity].
    unfold loop_head. rewrite Hrun. reflexivity. }
  unfold polish_processor. rewrite Hwake. unfold take_item. rewrite Hq.
  destruct items as [| item items]; simpl map.
  - exists s, []. destruct answers; simpl; repeat split; auto.
  - destruct (polish_run_in_order items item answers []
                (set_polish_queue (map Some items) s))
      as (s' & rs & Heq & Hq' & _ & Htexts & Htss & Hfinals).
    + exact Hrun.
    + exact Hcb.
    + simpl. rewrite List.app_nil_r. reflexivity.
    + simpl in Hlen. lia.
    + left. reflexivity.
    + exists s', rs. repeat split; assumption.
Qed.

Lemma consumer_processes_in_order_witness :
  exists s' rs,
    polish_processor (repeat (translated "好") 41) LoopHead backlog
      = (s', map TranscriptionCallback rs, Waiting) /\
    map original_text rs = map sub_text (map numbered (seq 0 41)).
Proof.
  destruct (consumer_processes_in_order (map numbered (seq 0 41))
              (repeat (translated "好") 41) LoopHead backlog)
    as (s' & rs & Heq & _ & Htexts & _);
    [left; reflexivity | reflexivity | reflexivity | reflexivity
    | vm_compute; lia |].
  exists s', rs. split; [exact Heq | exact Htexts].
Defined.

(** X4.  A running consumer that meets a sentinel exits there: the
    submissions queued in front of it are processed in order, what was
    queued behind it stays on the queue, unprocessed. *)
Theorem consumer_exits_at_sentinel :
  forall items rest answers st s,
    (st = LoopHead \/ st = Waiting) ->
    is_running s = true ->
    has_transcription_callback s = true ->
    polish_queue s = map Some items ++ None :: rest ->
    (List.length items <= List.length answers)%nat ->
    exists s' rs,
      polish_processor answers st s
        = (s', map TranscriptionCallback rs, Exited) /\
      polish_queue s' = rest /\
      map original_text rs = map sub_text items.
Proof.
  intros items rest answers st s Hst Hrun Hcb Hq Hlen.
  assert (Hwake : consumer_wake st s = take_item s).
  { destruct Hst as [-> | ->]; simpl; [| reflexivity].
    unfold loop_head. rewrite Hrun. reflexivity. }
  unfold polish_processor. rewrite Hwake. unfold take_item. rewrite Hq.
  destruct items as [| item items]; simpl map.
  - rewrite List.app_nil_l.
    exists (set_polish_queue rest s), [].
    destruct answers; simpl; repeat split; auto.
  - rewrite <- List.app_comm_cons.
    destruct (polish_run_in_order items item answers (None :: rest)
                (set_polish_queue (map Some items ++ None :: rest) s))
      as (s' & rs & Heq & Hq' & _ & Htexts & _).
    + exact Hrun.
    + exact Hcb.
    + reflexivity.
    + simpl in Hlen. lia.
    + right. exists rest. reflexivity.
    + exists s', rs. repeat split; assumption.
Qed.

Lemma consumer_exits_at_sentinel_witness :
  exists s' rs,
    polish_processor [translated "一"; translated "二"] Waiting
      (set_polish_queue
         [Some (numbered 1); None; Some (numbered 2)] (fst (started true)))
      = (s', map TranscriptionCallback rs, Exited) /\
    polish_queue s' = [Some (numbered 2)].
Proof.
  destruct (consumer_exits_at_sentinel [numbered 1] [Some (numbered 2)]
              [translated "一"; translated "二"] Waiting
              (set_polish_queue
                 [Some (numbered 1); None; Some (numbered 2)]
                 (fst (started true))))
    as (s' & rs & Heq & Hq & _);
    [right; reflexivity | reflexivity | reflexivity | reflexivity
    | vm_compute; lia |].
  exists s', rs. split; [exact Heq | exact Hq].
Defined.

(** X5.  When the request raises, or its answer yields no translation,
    the result the consumer passes on is dropped by the application's
    callback: nothing is displayed for the submission and the last known
    translation stays. *)
Theorem untranslated_result_not_displayed :
  forall c item s a,
    has_transcription_callback s = true ->
    (parsed_translation c = None \/ parsed_translation c = Some "") ->
    exists r,
      snd (fst (polish_complete c item s)) = [TranscriptionCallback r] /\
      original_text r = sub_text item /\
      deliver (snd (fst (polish_complete c item s))) a = (a, []).
Proof.
  intros c item s a Hcb Hc.
  unfold polish_complete, polish_transcription.
  assert (Hshow : forall r, is_final r = true -> chinese_translation r = "" ->
                    on_transcription r a = (a, [])).
  { intros r Hf Ht. unfold on_transcription. rewrite Hf, Ht. simpl.
    destruct (subtitle_display a); reflexivity. }
  destruct Hc as [Hc | Hc]; rewrite Hc.
  - destruct (loop_head s) as [s2 st].
    unfold transcription_callback. rewrite Hcb.
    eexists. split; [reflexivity |]. split; [reflexivity |].
    cbn [snd fst deliver]. rewrite Hshow; reflexivity.
  - destruct (loop_head _) as [s2 st].
    unfold transcription_callback.
    replace (has_transcription_callback (add_to_context _ s)) with true.
    + eexists. split; [reflexivity |]. split; [reflexivity |].
      cbn [snd fst deliver]. rewrite Hshow; reflexivity.
    + unfold add_to_context.
      destruct (context_window <? _)%nat; simpl; symmetry; exact Hcb.
Qed.

Lemma untranslated_result_not_displayed_witness :
  deliver
    (snd (fst (polish_complete
                 (CallRaises (mkExn (OtherCls "APITimeoutError") "Request timed out."))
                 (mkSubmission "hello world." "en" "12:00:00")
                 (fst (started true)))))
    app_started
  = (app_started, []).
Proof.
  destruct (untranslated_result_not_displayed
              (CallRaises (mkExn (OtherCls "APITimeoutError") "Request timed out."))
              (mkSubmission "hello world." "en" "12:00:00")
              (fst (started true)) app_started eq_refl (or_introl eq_refl))
    as (r & _ & _ & Hnone).
  exact Hnone.
Defined.

(** ** The session *)

(** X6.  [send_audio] never changes the session, and it hands the chunk to
    the socket exactly when there is a connection, the session is running
    and the connection is ready.  So nothing is sent after an Error or a
    Close event, and sending resumes with the next Open event. *)
Theorem audio_forwarded_only_when_ready :
  forall raised audio s,
    fst (send_audio raised audio s) = s /\
    (In (ConnectionSend audio) (snd (send_audio raised audio s)) <->
       connection s = true /\ is_running s = true /\
       connection_ready s = true) /\
    send_audio raised audio (fst (on_error s)) = (fst (on_error s), []) /\
    send_audio raised audio (fst (on_close s)) = (fst (on_close s), []) /\
    (connection s = true -> is_running s = true ->
       send_audio None audio (fst (on_open s))
       = (fst (on_open s), [ConnectionSend audio])).
Proof.
  intros raised audio s.
  assert (Hquiet : send_audio raised audio (fst (on_error s))
                   = (fst (on_error s), [])).
  { unfold on_error, send_audio.
    destruct (is_running (set_connection_ready false s)
              && main_loop (set_connection_ready false s)
              && negb (is_reconnecting (set_connection_ready false s)));
      cbn [fst connection_ready set_connection_ready];
      rewrite Bool.andb_false_r; reflexivity. }
  split; [| split; [| split; [| split]]].
  - unfold send_audio.
    destruct (connection s && is_running s && connection_ready s);
      [destruct raised |]; reflexivity.
  - unfold send_audio.
    destruct (connection s), (is_running s), (connection_ready s);
      cbn [andb]; split;
      try (intros []; fail);
      try (intros (H1 & H2 & H3); discriminate);
      try (intros _; repeat split; fail);
      intros _; destruct raised; left; reflexivity.
  - exact Hquiet.
  - exact Hquiet.
  - intros Hc Hr. unfold on_open, send_audio.
    cbn [fst connection is_running connection_ready set_connection_ready].
    rewrite Hc, Hr. reflexivity.
Qed.

(** X7.  Once [stop()] has run, the session stays quiet: an Error or a
    Close event schedules no reconnection, a reconnection that was
    scheduled before makes no attempt, [send_audio] sends nothing, and a
    second [stop()] does not close the socket again. *)
Theorem stopped_session_stays_quiet :
  forall s clk net raised audio,
    let s1 := fst (stop s) in
    is_running s1 = false /\ connection s1 = false /\
    is_reconnecting s1 = false /\
    snd (on_error s1) = [] /\
    snd (on_close s1) = [] /\
    reconnect clk net s1 = (s1, [], Returned) /\
    reconnect clk net (fst (on_error s1)) = (fst (on_error s1), [], Returned) /\
    send_audio raised audio s1 = (s1, []) /\
    snd (stop s1) = [].
Proof.
  intros s clk net raised audio s1.
  assert (Hrun : is_running s1 = false).
  { subst s1. unfold stop. simpl.
    destruct (connection s); simpl; destruct (polish_task s); reflexivity. }
  assert (Hconn : connection s1 = false).
  { subst s1. unfold stop. simpl.
    destruct (connection s) eqn:Hc; simpl; destruct (polish_task s); simpl;
      try reflexivity; exact Hc. }
  assert (Hrec : is_reconnecting s1 = false).
  { subst s1. unfold stop. simpl.
    destruct (connection s); simpl; destruct (polish_task s); reflexivity. }
  clearbody s1.
  assert (Herr : on_error s1 = (set_connection_ready false s1, [])).
  { unfold on_error. cbn [is_running set_connection_ready]. rewrite Hrun.
    reflexivity. }
  repeat split; try assumption.
  - rewrite Herr. reflexivity.
  - unfold on_close. rewrite Herr. reflexivity.
  - unfold reconnect. rewrite Hrun, Hrec. reflexivity.
  - rewrite Herr. unfold reconnect.
    cbn [fst is_running is_reconnecting set_connection_ready].
    rewrite Hrun, Hrec. reflexivity.
  - now apply send_audio_not_running.
  - unfold stop. cbn [connection set_is_reconnecting set_is_running].
    rewrite Hconn. destruct (polish_task _); reflexivity.
Qed.

(** The loop keeps the counter between 0 and the maximum. *)
Lemma reconnect_loop_range (clk : Clock) (net : list open_outcome) :
  forall s s' es p,
    reconnect_loop clk net s = (s', es, p) ->
    0 <= reconnect_attempts s <= max_reconnect_attempts ->
    0 <= reconnect_attempts s' <= max_reconnect_attempts.
Proof.
  induction net as [| o net IH]; intros s s' es p Hloop Hrange.
  - simpl in Hloop.
    destruct (is_running s && (reconnect_attempts s <? max_reconnect_attempts));
      inversion Hloop; subst; exact Hrange.
  - destruct (is_running s && (reconnect_attempts s <? max_reconnect_attempts))
      eqn:Hcond.
    + apply Bool.andb_true_iff in Hcond as [Hrun Hlt]. apply Z.ltb_lt in Hlt.
      destruct (fails o) eqn:Hf.
      * destruct (reconnect_loop_fail clk o net s Hrun Hlt Hf)
          as (s1 & es1 & e & _ & Hatt & _ & _ & _ & _ & Heq).
        rewrite Heq in Hloop.
        destruct (reconnect_attempts s1 >=? max_reconnect_attempts).
        -- inversion Hloop; subst. simpl. lia.
        -- destruct (reconnect_loop clk net s1) as [[s2 es2] p2] eqn:Hrec.
           inversion Hloop; subst. apply (IH _ _ _ _ Hrec). lia.
      * assert (o = StartReturns true) as ->.
        { destruct o as [e | e | [|]]; try discriminate Hf; reflexivity. }
        destruct (reconnect_loop_open clk net s Hrun Hlt)
          as (s1 & es1 & _ & Hzero & _ & _ & _ & _ & _ & Heq).
        rewrite Heq in Hloop. inversion Hloop; subst. rewrite Hzero.
        unfold max_reconnect_attempts. lia.
    + rewrite (reconnect_loop_done clk (o :: net) s Hcond) in Hloop.
      inversion Hloop; subst. exact Hrange.
Qed.

(** X8.  Whatever the counter is when [_reconnect] is entered, the call
    makes at most as many attempts as the counter leaves room for up to 5,
    each after a sleep.  With the counter already at 5 (it is not reset
    by [start()]) the call makes no attempt at all and reports nothing,
    leaving the session marked running. *)
Theorem reconnect_respects_counter :
  forall clk net s s' es p,
    reconnect clk net s = (s', es, p) ->
    Z.of_nat (count_attempts es) <= Z.max 0 (5 - reconnect_attempts s) /\
    delayed None es = true /\
    (5 <= reconnect_attempts s ->
       es = [] /\ p = Returned /\ is_running s' = is_running s /\
       reconnect_attempts s' = reconnect_attempts s).
Proof.
  intros clk net s s' es p Heq. unfold reconnect in Heq.
  destruct (is_reconnecting s || negb (is_running s)) eqn:Hguard.
  - inversion Heq; subst. repeat split; simpl; lia.
  - destruct (reconnect_loop_bounded clk net _ s' es p Heq) as [Hb Hd].
    split; [exact Hb | split; [apply Hd |]].
    intros Hstale.
    rewrite reconnect_loop_done in Heq.
    + inversion Heq; subst. repeat split.
    + cbn [is_running reconnect_attempts set_is_reconnecting].
      replace (reconnect_attempts s <? max_reconnect_attempts) with false
        by (symmetry; apply Z.ltb_ge; unfold max_reconnect_attempts; lia).
      apply Bool.andb_false_r.
Qed.

Lemma reconnect_respects_counter_witness :
  reconnect_attempts restarted = 5 /\
  snd (fst (reconnect noon_1s [refused; StartReturns true]
              (fst (on_error restarted)))) = [] /\
  is_running (fst (fst (reconnect noon_1s [refused; StartReturns true]
                          (fst (on_error restarted))))) = true.
Proof.
  destruct (reconnect noon_1s [refused; StartReturns true]
              (fst (on_error restarted))) as [[s' es] p] eqn:Hout.
  destruct (reconnect_respects_counter noon_1s [refused; StartReturns true]
              (fst (on_error restarted)) s' es p Hout) as (_ & _ & Hstale).
  destruct Hstale as (Hes & _ & Hrun & _); [vm_compute; discriminate |].
  repeat split; [exact Hes | exact (eq_trans Hrun eq_refl)].
Defined.

Lemma transcript_event_attempts (clk : Clock) (result : option LiveResult)
    (s : transcriber) :
  reconnect_attempts (fst (transcript_event clk result s))
  = reconnect_attempts s.
Proof.
  unfold transcript_event.
  assert (Hsched : forall es s0,
            reconnect_attempts (run_scheduled clk es s0)
            = reconnect_attempts s0).
  { induction es as [| e es IH]; intros s0; [reflexivity |].
    destruct e; simpl; rewrite ?IH; try reflexivity.
    unfold queue_for_polish. destruct (alternatives r); reflexivity. }
  assert (Hon : reconnect_attempts (fst (on_transcript clk result s))
                = reconnect_attempts s).
  { unfold on_transcript.
    destruct result as [r |]; [| reflexivity].
    destruct (alternatives r) as [| alt rest]; [reflexivity |].
    destruct (transcript alt =? "")%string; [reflexivity |].
    destruct (interim_results s && negb (lr_is_final r)).
    - cbn zeta. destruct (_ >=? translation_threshold); reflexivity.
    - destruct (lr_is_final r); reflexivity. }
  destruct (on_transcript clk result s) as [s1 es]. simpl in Hon |- *.
  rewrite Hsched. exact Hon.
Qed.

Lemma loop_head_attempts (s : transcriber) :
  reconnect_attempts (fst (loop_head s)) = reconnect_attempts s.
Proof.
  unfold loop_head, take_item.
  destruct (is_running s); [| reflexivity].
  destruct (polish_queue s) as [| [item |] q]; reflexivity.
Qed.

Lemma consumer_wake_attempts (st : consumer) (s : transcriber) :
  reconnect_attempts (fst (consumer_wake st s)) = reconnect_attempts s.
Proof.
  destruct st; simpl; try reflexivity.
  - apply loop_head_attempts.
  - unfold take_item. destruct (polish_queue s) as [| [item |] q]; reflexivity.
Qed.

Lemma step_attempts_range (ev : event) (sys : system) :
  0 <= reconnect_attempts (fst sys) <= max_reconnect_attempts ->
  0 <= reconnect_attempts (fst (fst (step ev sys))) <= max_reconnect_attempts.
Proof.
  destruct sys as [s st]. intros Hrange. simpl in Hrange.
  destruct ev; simpl.
  - exact Hrange.
  - exact Hrange.
  - destruct o as [e | e | [|]]; exact Hrange.
  - unfold stop. simpl.
    destruct (connection s); simpl; destruct (polish_task s); exact Hrange.
  - exact Hrange.
  - unfold on_error. simpl.
    destruct (is_running s && main_loop s && negb (is_reconnecting s));
      exact Hrange.
  - unfold on_close, on_error. simpl.
    destruct (is_running s && main_loop s && negb (is_reconnecting s));
      exact Hrange.
  - destruct (reconnect clk net s) as [[s' es] p] eqn:Heq. simpl.
    unfold reconnect in Heq.
    destruct (is_reconnecting s || negb (is_running s)).
    + inversion Heq; subst. exact Hrange.
    + apply (reconnect_loop_range clk net _ s' es p Heq). exact Hrange.
  - unfold send_audio.
    destruct (connection s && is_running s && connection_ready s);
      [destruct raised |]; exact Hrange.
  - pose proof (transcript_event_attempts clk result s) as H.
    destruct (transcript_event clk result s) as [s' es]. simpl in *.
    rewrite H. exact Hrange.
  - pose proof (consumer_wake_attempts st s) as H.
    destruct (consumer_wake st s) as [s' st']. simpl in *.
    rewrite H. exact Hrange.
  - destruct st as [| | | item |]; try exact Hrange.
    unfold polish_complete.
    destruct (polish_transcription_reads c (sub_text item)
                (sub_language item) (sub_timestamp item) s)
      as (_ & _ & _ & Hatt).
    destruct (polish_transcription c _ _ _ s) as [s1 result].
    pose proof (loop_head_attempts s1) as Hl.
    destruct (loop_head s1) as [s2 st2]. simpl in *.
    rewrite Hl, Hatt. exact Hrange.
Qed.

(** X9.  From a new transcriber, whatever events follow one another, the
    attempt counter stays between 0 and 5. *)
Theorem attempt_counter_in_range :
  forall lang interim evs,
    0 <= reconnect_attempts (fst (fst (run evs (init lang interim, NoTask))))
      <= 5.
Proof.
  intros lang interim evs.
  assert (Hrun : forall sys,
            0 <= reconnect_attempts (fst sys) <= max_reconnect_attempts ->
            0 <= reconnect_attempts (fst (fst (run evs sys)))
              <= max_reconnect_attempts).
  { induction evs as [| ev evs IH]; intros sys Hsys; [exact Hsys |].
    simpl. pose proof (step_attempts_range ev sys Hsys) as Hstep.
    destruct (step ev sys) as [sys1 es].
    specialize (IH sys1 Hstep).
    destruct (run evs sys1) as [sys2 es']. exact IH. }
  apply (Hrun (init lang interim, NoTask)).
  simpl. unfold max_reconnect_attempts. lia.
Qed.

(** X10.  A [start()] that fails leaves the session marked running with
    the main loop recorded, and creates no polish task; so the next Error
    or Close event schedules a reconnection. *)
Theorem failed_start_leaves_session_running :
  forall o s,
    opened o = false ->
    let s' := fst (fst (start o s)) in
    is_running s' = true /\ main_loop s' = true /\
    polish_task s' = polish_task s /\
    ~ In CreatePolishTask (snd (fst (start o s))) /\
    (is_reconnecting s = false ->
       snd (on_error s') = [ScheduleReconnect] /\
       snd (on_close s') = [ScheduleReconnect]).
Proof.
  intros o s Hfail s'. subst s'.
  assert (Hcb : forall s0 msg, ~ In CreatePolishTask (error_callback s0 msg)).
  { intros s0 msg. unfold error_callback.
    destruct (has_error_callback s0); simpl; [intros [H | []]; discriminate H | tauto]. }
  destruct o as [e | e | [|]]; try discriminate Hfail;
    cbv beta iota zeta delta [start fst snd];
    (split; [reflexivity | split; [reflexivity | split; [reflexivity | split]]]).
  - intros Hin. apply List.in_app_or in Hin as [[H | []] | Hin];
      [discriminate H | exact (Hcb _ _ Hin)].
  - intros Hrec. unfold on_close, on_error. simpl. rewrite Hrec. split; reflexivity.
  - intros Hin. apply List.in_app_or in Hin as [[H | [H | []]] | Hin];
      [discriminate H | discriminate H | exact (Hcb _ _ Hin)].
  - intros Hrec. unfold on_close, on_error. simpl. rewrite Hrec. split; reflexivity.
  - intros Hin. apply List.in_app_or in Hin as [[H | [H | []]] | Hin];
      [discriminate H | discriminate H | exact (Hcb _ _ Hin)].
  - intros Hrec. unfold on_close, on_error. simpl. rewrite Hrec. split; reflexivity.
Qed.

Lemma failed_start_leaves_session_running_witness :
  is_running (fst (fst (start refused configured))) = true /\
  snd (on_error (fst (fst (start refused configured)))) = [ScheduleReconnect].
Proof.
  destruct (failed_start_leaves_session_running refused configured eq_refl)
    as (Hrun & _ & _ & _ & Hnext).
  destruct (Hnext eq_refl) as [Herr _].
  split; [exact Hrun | exact Herr].
Defined.

(** ** The prompt context *)

Lemma last_n_app {A : Type} (n : nat) (older recent : list A) :
  List.length recent = n -> last_n n (older ++ recent) = recent.
Proof.
  intros Hlen. unfold last_n. rewrite List.length_app, Hlen.
  replace (List.length older + n - n)%nat with (List.length older + 0)%nat by lia.
  rewrite List.skipn_app, List.skipn_all2 by lia.
  replace (List.length older + 0 - List.length older)%nat with 0%nat by lia.
  reflexivity.
Qed.

(** X11.  The context handed to the polishing service is built from the
    last five entries of the window only: older entries do not change
    it. *)
Theorem build_context_uses_last_five :
  forall older recent5,
    List.length recent5 = 5%nat ->
    build_context_of (older ++ recent5) = build_context_of recent5.
Proof.
  intros older recent5 Hlen. unfold build_context_of.
  rewrite (last_n_app 5 older recent5 Hlen).
  pose proof (last_n_app 5 [] recent5 Hlen) as Hself. simpl in Hself.
  rewrite Hself.
  destruct recent5 as [| r recent5]; [discriminate Hlen |].
  destruct older; reflexivity.
Qed.

Lemma build_context_uses_last_five_witness :
  build_context_of
    ([mkResult "en" "old" "旧" "11:59:00" true]
       ++ map (fun n => mkResult "en" (sub_text (numbered n)) "" "12:00:00" true)
            (seq 0 5))
  = build_context_of
      (map (fun n => mkResult "en" (sub_text (numbered n)) "" "12:00:00" true)
         (seq 0 5)).
Proof.
  apply build_context_uses_last_five. reflexivity.
Defined.

Lemma context_parts_snoc (total : nat) (items : list TranscriptionResult)
    (r : TranscriptionResult) :
  forall i,
    context_parts total i (items ++ [r])
    = context_parts total i items
        ++ [context_part total (i + List.length items) r].
Proof.
  induction items as [| item items IH]; intros i; simpl.
  - rewrite Nat.add_0_r. reflexivity.
  - rewrite IH. replace (S i + List.length items)%nat
      with (i + S (List.length items))%nat by lia. reflexivity.
Qed.

Lemma string_app_assoc (a b c : string) :
  ((a ++ b) ++ c = a ++ b ++ c)%string.
Proof. induction a as [| ch a IH]; simpl; [reflexivity | now rewrite IH]. Qed.

Lemma concat_snoc (sep : string) (parts : list string) (last : string) :
  exists before, String.concat sep (parts ++ [last]) = (before ++ last)%string.
Proof.
  induction parts as [| p parts IH]; simpl.
  - exists "". reflexivity.
  - destruct IH as [before IH]. rewrite IH.
    destruct (parts ++ [last]) eqn:Hnil.
    + destruct parts; discriminate Hnil.
    + exists (p ++ sep ++ before)%string.
      rewrite !string_app_assoc. reflexivity.
Qed.

(** X12.  In a non-empty context the newest entry of the window comes
    last and is the one numbered 1, with its original text and, unless it
    is empty, its translation. *)
Theorem build_context_ends_with_newest :
  forall older newest,
    exists before,
      build_context_of (older ++ [newest])
      = (before ++ context_part 1 1 newest)%string /\
      context_part 1 1 newest
      = ("前1条:" ++ nl ++ "原文: " ++ original_text newest
           ++ (if (chinese_translation newest =? "") then ""
               else nl ++ "翻译: " ++ chinese_translation newest))%string.
Proof.
  intros older newest.
  assert (Hitems : exists kept,
             last_n 5 (older ++ [newest]) = kept ++ [newest]).
  { unfold last_n. rewrite List.length_app. simpl List.length.
    exists (skipn (List.length older + 1 - 5) older).
    rewrite List.skipn_app.
    replace (List.length older + 1 - 5 - List.length older)%nat with 0%nat by lia.
    reflexivity. }
  destruct Hitems as [kept Hitems].
  unfold build_context_of. rewrite Hitems.
  rewrite context_parts_snoc, List.length_app. simpl List.length.
  replace (List.length kept + 1 - (1 + List.length kept) + 1)%nat with 1%nat
    by lia.
  assert (Hpart : context_part (List.length kept + 1) (1 + List.length kept) newest
                  = context_part 1 1 newest).
  { unfold context_part.
    replace (List.length kept + 1 - (1 + List.length kept) + 1)%nat with 1%nat
      by lia. reflexivity. }
  rewrite Hpart.
  destruct (concat_snoc (nl ++ nl)
              (context_parts (List.length kept + 1) 1 kept)
              (context_part 1 1 newest)) as [before Hcat].
  rewrite Hcat.
  destruct (older ++ [newest]) eqn:Hnil.
  - destruct older; discriminate Hnil.
  - exists ("参考上下文（从旧到新）:" ++ nl ++ before)%string. split.
    + rewrite !string_app_assoc. reflexivity.
    + unfold context_part. simpl. reflexivity.
Qed.

(** * Audio capture *)

Section FindDevice.

Variable lower : string -> string.

Lemma first_index_some (p : Capture.Device -> bool)
    (devices : list Capture.Device) :
  forall k idx,
    Capture.first_index p k devices = Some idx ->
    (k <= idx)%nat /\
    exists d,
      nth_error devices (idx - k) = Some d /\ p d = true /\
      forall j d', (j < idx - k)%nat -> nth_error devices j = Some d' ->
                   p d' = false.
Proof.
  induction devices as [| d devices IH]; intros k idx Hfound;
    [discriminate Hfound |].
  simpl in Hfound. destruct (p d) eqn:Hp.
  - inversion Hfound; subst. split; [lia |].
    rewrite Nat.sub_diag. exists d. repeat split; try assumption.
    intros j d' Hj. lia.
  - destruct (IH (S k) idx Hfound) as (Hle & d0 & Hnth & Hp0 & Hfirst).
    split; [lia |].
    replace (idx - k)%nat with (S (idx - S k)) by lia.
    exists d0. repeat split; try assumption.
    intros [| j] d' Hj Hd'.
    + simpl in Hd'. inversion Hd'; subst. exact Hp.
    + simpl in Hd'. apply (Hfirst j d'); [lia | exact Hd'].
Qed.

Lemma first_index_none (p : Capture.Device -> bool)
    (devices : list Capture.Device) :
  forall k,
    Capture.first_index p k devices = None <->
    (forall d, In d devices -> p d = false).
Proof.
  induction devices as [| d devices IH]; intros k; simpl.
  - split; [intros _ d [] | reflexivity].
  - destruct (p d) eqn:Hp.
    + split; [discriminate |].
      intros Hall. rewrite (Hall d (or_introl eq_refl)) in Hp. discriminate Hp.
    + rewrite IH. split.
      * intros Hall d' [<- | Hin]; [exact Hp | exact (Hall d' Hin)].
      * intros Hall d' Hin. apply Hall. right. exact Hin.
Qed.

(** X13.  The index [find_device_id] returns is that of a device with
    input channels.  It is the first device whose name contains the
    configured name (case folded); only when no device does, it is the
    first one whose name contains "blackhole". *)
Theorem find_device_id_first_match :
  forall c devices idx,
    Capture.find_device_id lower c devices = Some idx ->
    exists d,
      nth_error devices idx = Some d /\
      0 < Capture.max_input_channels d /\
      ((Capture.is_target lower c d = true /\
        forall j d', (j < idx)%nat -> nth_error devices j = Some d' ->
                     Capture.is_target lower c d' = false) \/
       (Capture.is_blackhole lower d = true /\
        (forall d', In d' devices -> Capture.is_target lower c d' = false) /\
        forall j d', (j < idx)%nat -> nth_error devices j = Some d' ->
                     Capture.is_blackhole lower d' = false)).
Proof.
  intros c devices idx Hfound. unfold Capture.find_device_id in Hfound.
  destruct (Capture.first_index (Capture.is_target lower c) 0 devices)
    as [i |] eqn:Htarget.
  - inversion Hfound; subst i.
    destruct (first_index_some _ _ _ _ Htarget) as (_ & d & Hnth & Hp & Hfirst).
    rewrite Nat.sub_0_r in Hnth, Hfirst.
    exists d. split; [exact Hnth |]. split.
    + unfold Capture.is_target in Hp.
      apply Bool.andb_true_iff in Hp as [_ Hp]. apply Z.ltb_lt in Hp. exact Hp.
    + left. split; assumption.
  - destruct (first_index_some _ _ _ _ Hfound) as (_ & d & Hnth & Hp & Hfirst).
    rewrite Nat.sub_0_r in Hnth, Hfirst.
    exists d. split; [exact Hnth |]. split.
    + unfold Capture.is_blackhole in Hp.
      apply Bool.andb_true_iff in Hp as [_ Hp]. apply Z.ltb_lt in Hp. exact Hp.
    + right. repeat split; try assumption.
      apply (first_index_none _ _ 0%nat). exact Htarget.
Qed.

(** X14.  [find_device_id] finds nothing exactly when no device with
    input channels has a name containing the configured name or
    "blackhole"; and that is exactly when [start_capture] on a capture
    that is not recording raises [ValueError], leaving it not
    recording. *)
Theorem no_device_iff_start_fails :
  forall c devices,
    let none_fits :=
      forall d, In d devices ->
        Capture.is_target lower c d = false /\
        Capture.is_blackhole lower d = false in
    (Capture.find_device_id lower c devices = None <-> none_fits) /\
    (Capture.is_recording c = false ->
       (none_fits <->
        exists e,
          snd (Capture.start_capture lower devices c) = Some e /\
          exn_cls e = OtherCls "ValueError" /\
          Capture.is_recording (fst (Capture.start_capture lower devices c))
            = false)).
Proof.
  intros c devices none_fits.
  assert (Hnone : Capture.find_device_id lower c devices = None <-> none_fits).
  { unfold Capture.find_device_id, none_fits.
    destruct (Capture.first_index (Capture.is_target lower c) 0 devices)
      as [i |] eqn:Htarget.
    - split; [discriminate |]. intros Hall.
      destruct (first_index_some _ _ _ _ Htarget) as (_ & d & Hnth & Hp & _).
      apply List.nth_error_In in Hnth.
      destruct (Hall d Hnth) as [Hno _]. rewrite Hno in Hp. discriminate Hp.
    - rewrite first_index_none. rewrite first_index_none in Htarget.
      split.
      + intros Hall d Hin. split; [apply Htarget | apply Hall]; exact Hin.
      + intros Hall d Hin. apply (Hall d Hin). }
  split; [exact Hnone |].
  intros Hidle. unfold Capture.start_capture. rewrite Hidle.
  destruct (Capture.find_device_id lower c devices) as [idx |] eqn:Hfind.
  - split.
    + intros Hfits. apply Hnone in Hfits. discriminate Hfits.
    + intros (e & He & _). discriminate He.
  - split.
    + intros _. eexists. simpl. repeat split; try exact Hidle.
    + intros _. apply Hnone. reflexivity.
Qed.

End FindDevice.

Lemma find_device_id_first_match_witness :
  exists d,
    nth_error sample_devices 2 = Some d /\ 0 < Capture.max_input_channels d.
Proof.
  destruct (find_device_id_first_match ascii_lower
              (Capture.init "BlackHole 2ch") sample_devices 2%nat eq_refl)
    as (d & Hnth & Hin & _).
  exists d. split; [exact Hnth | exact Hin].
Defined.

Lemma no_device_iff_start_fails_witness :
  exists e,
    snd (Capture.start_capture ascii_lower
           [Capture.mkDevice "MacBook Pro Speakers" 0 2]
           (Capture.init "BlackHole 2ch")) = Some e /\
    exn_cls e = OtherCls "ValueError".
Proof.
  destruct (no_device_iff_start_fails ascii_lower
              (Capture.init "BlackHole 2ch")
              [Capture.mkDevice "MacBook Pro Speakers" 0 2])
    as [_ Hstart].
  destruct (Hstart eq_refl) as [Hraise _].
  destruct Hraise as (e & He & Hcls & _).
  - intros d [<- | []]. split; reflexivity.
  - exists e. split; [exact He | exact Hcls].
Defined.

Lemma audio_callback_recording (pcm : list Byte.byte) (c : Capture.capture) :
  Capture.is_recording c = true ->
  Capture.is_recording (fst (Capture.audio_callback pcm c)) = true /\
  Capture.audio_queue (fst (Capture.audio_callback pcm c))
  = Capture.audio_queue c ++ [pcm].
Proof.
  intros Hrec. unfold Capture.audio_callback. rewrite Hrec. simpl.
  split; reflexivity.
Qed.

Lemma feed_recording (blocks : list (list Byte.byte)) :
  forall c,
    Capture.is_recording c = true ->
    Capture.is_recording (Capture.feed blocks c) = true /\
    Capture.audio_queue (Capture.feed blocks c)
    = Capture.audio_queue c ++ blocks.
Proof.
  induction blocks as [| pcm blocks IH]; intros c Hrec; simpl.
  - rewrite List.app_nil_r. split; [exact Hrec | reflexivity].
  - destruct (audio_callback_recording pcm c Hrec) as [Hrec1 Hq1].
    destruct (IH _ Hrec1) as [Hr Hq].
    split; [exact Hr |]. rewrite Hq, Hq1.
    rewrite <- List.app_assoc. reflexivity.
Qed.

Lemma take_all (queue : list (list Byte.byte)) :
  forall c,
    Capture.audio_queue c = queue ->
    snd (Capture.take (List.length queue) c) = map Some queue /\
    Capture.audio_queue (fst (Capture.take (List.length queue) c)) = [].
Proof.
  induction queue as [| chunk queue IH]; intros c Hq; simpl.
  - split; [reflexivity | exact Hq].
  - unfold Capture.get_audio_data. rewrite Hq.
    destruct (IH (Capture.mkCapture (Capture.device_name c)
                    (Capture.is_recording c) (Capture.device_id c) queue
                    (Capture.has_audio_callback c) (Capture.capture_thread c))
                eq_refl) as [Hgot Hempty].
    destruct (Capture.take (List.length queue) _) as [c2 more].
    simpl in *. split; [rewrite Hgot; reflexivity | exact Hempty].
Qed.

(** X15.  While recording, the blocks the device delivers come out of
    [get_audio_data] one per call, in the order they were delivered, and
    once they are out the next call returns [None]. *)
Theorem captured_blocks_come_out_in_order :
  forall blocks c,
    Capture.is_recording c = true ->
    Capture.audio_queue c = [] ->
    let '(c', got) :=
      Capture.take (List.length blocks) (Capture.feed blocks c) in
    got = map Some blocks /\ snd (Capture.get_audio_data c') = None.
Proof.
  intros blocks c Hrec Hempty.
  destruct (feed_recording blocks c Hrec) as [_ Hq].
  rewrite Hempty in Hq. simpl in Hq.
  destruct (take_all blocks (Capture.feed blocks c) Hq) as [Hgot Hdone].
  destruct (Capture.take (List.length blocks) (Capture.feed blocks c))
    as [c' got].
  simpl in *. split; [exact Hgot |].
  unfold Capture.get_audio_data. rewrite Hdone. reflexivity.
Qed.

Lemma captured_blocks_come_out_in_order_witness :
  snd (Capture.take 2
         (Capture.feed [[Byte.x01; Byte.x00]; [Byte.x02; Byte.x00]]
            (fst (Capture.start_capture ascii_lower sample_devices
                    (Capture.init "BlackHole 2ch")))))
  = [Some [Byte.x01; Byte.x00]; Some [Byte.x02; Byte.x00]].
Proof.
  pose proof (captured_blocks_come_out_in_order
                [[Byte.x01; Byte.x00]; [Byte.x02; Byte.x00]]
                (fst (Capture.start_capture ascii_lower sample_devices
                        (Capture.init "BlackHole 2ch")))
                eq_refl eq_refl) as H.
  destruct (Capture.take _ _) as [c' got] eqn:Htake in H.
  destruct H as [Hgot _].
  change (snd (Capture.take
                 (List.length [[Byte.x01; Byte.x00]; [Byte.x02; Byte.x00]])
                 (Capture.feed [[Byte.x01; Byte.x00]; [Byte.x02; Byte.x00]]
                    (fst (Capture.start_capture ascii_lower sample_devices
                            (Capture.init "BlackHole 2ch")))))
          = [Some [Byte.x01; Byte.x00]; Some [Byte.x02; Byte.x00]]).
  rewrite Htake. exact Hgot.
Defined.

Lemma capture_step_idle_empty (lower : string -> string)
    (ev : capture_event) (c : Capture.capture) :
  (Capture.is_recording c = false -> Capture.audio_queue c = []) ->
  Capture.is_recording (capture_step lower ev c) = false ->
  Capture.audio_queue (capture_step lower ev c) = [].
Proof.
  intros Hinv. destruct ev; simpl.
  - exact Hinv.
  - unfold Capture.start_capture.
    destruct (Capture.is_recording c) eqn:Hrec;
      [simpl; intros H; congruence |].
    destruct (Capture.find_device_id lower c devices); simpl.
    + intros H; discriminate H.
    + intros _. apply Hinv. reflexivity.
  - unfold Capture.audio_callback.
    destruct (Capture.is_recording c) eqn:Hrec; simpl.
    + intros H. congruence.
    + intros _. apply Hinv. reflexivity.
  - unfold Capture.get_audio_data.
    destruct (Capture.audio_queue c) as [| chunk rest] eqn:Hq; simpl.
    + intros _. exact Hq.
    + intros Hidle. apply Hinv in Hidle. discriminate Hidle.
  - unfold Capture.stop_capture.
    destruct (Capture.is_recording c) eqn:Hrec; simpl.
    + reflexivity.
    + intros _. apply Hinv. reflexivity.
Qed.

(** X16.  Whatever sequence of calls ([set_audio_callback],
    [start_capture], blocks from the device, [get_audio_data],
    [stop_capture]) a capture object has seen since it was created, its
    queue is empty whenever it is not recording; so after [stop_capture],
    and until it is started again, [get_audio_data] returns [None]: no
    block captured before the stop is read after it.  (A failure of the
    capture loop is not among these calls; see X24.) *)
Theorem idle_capture_has_no_audio :
  forall lower target evs,
    let c := capture_run lower evs (Capture.init target) in
    (Capture.is_recording c = false -> Capture.audio_queue c = []) /\
    snd (Capture.get_audio_data (Capture.stop_capture c)) = None.
Proof.
  intros lower target evs c.
  assert (Hinv : Capture.is_recording c = false -> Capture.audio_queue c = []).
  { subst c. unfold capture_run.
    assert (Hgen : forall c0,
              (Capture.is_recording c0 = false -> Capture.audio_queue c0 = []) ->
              Capture.is_recording
                (fold_left (fun c ev => capture_step lower ev c) evs c0) = false ->
              Capture.audio_queue
                (fold_left (fun c ev => capture_step lower ev c) evs c0) = []).
    { induction evs as [| ev evs IH]; intros c0 H0; simpl; [exact H0 |].
      apply IH. apply capture_step_idle_empty. exact H0. }
    apply Hgen. reflexivity. }
  split; [exact Hinv |].
  unfold Capture.stop_capture, Capture.get_audio_data.
  destruct (Capture.is_recording c) eqn:Hrec; simpl.
  - reflexivity.
  - rewrite (Hinv eq_refl). reflexivity.
Qed.

(** X17.  A turn of the forwarding loop always takes the oldest chunk off
    the capture queue and never changes the session.  The chunk goes to
    the socket only if it is not empty and the session is connected,
    running and ready; otherwise it is dropped, not kept for a later
    turn. *)
Theorem forwarding_never_buffers :
  forall raised c s,
    let '(c', s', es) := forward_audio raised c s in
    Capture.audio_queue c' = List.tl (Capture.audio_queue c) /\
    s' = s /\
    (connection s && is_running s && connection_ready s = false -> es = []) /\
    (forall chunk,
        In (ConnectionSend chunk) es ->
        chunk <> [] /\ List.hd_error (Capture.audio_queue c) = Some chunk).
Proof.
  intros raised c s. unfold forward_audio, Capture.get_audio_data.
  destruct (Capture.audio_queue c) as [| [| b chunk] rest] eqn:Hq; simpl.
  - rewrite Hq. split; [| split; [| split]]; try reflexivity.
    intros chunk' [].
  - split; [| split; [| split]]; try reflexivity.
    intros chunk' [].
  - assert (Hcb : forall msg chunk', ~ In (ConnectionSend chunk') (error_callback s msg)).
    { intros msg chunk'. unfold error_callback.
      destruct (has_error_callback s); simpl;
        [intros [H | []]; discriminate H | tauto]. }
    unfold send_audio.
    destruct (connection s && is_running s && connection_ready s);
      [destruct raised as [e |] |]; simpl;
      (split; [| split; [| split]]); try reflexivity; try discriminate.
    + intros chunk' [H | H]; [| exfalso; exact (Hcb _ _ H)].
      inversion H; subst chunk'. split; [discriminate | reflexivity].
    + intros chunk' [H | []].
      inversion H; subst chunk'. split; [discriminate | reflexivity].
    + intros chunk' [].
Qed.

(** * The subtitle window *)

Lemma update_subtitle_running (strip : string -> string)
    (original chinese : string) (seconds : Z) (d : Display.display) :
  Display.is_running
    (Display.update_subtitle strip original chinese seconds d)
  = Display.is_running d.
Proof.
  unfold Display.update_subtitle.
  destruct (Display.is_running d) eqn:Hrun; simpl; [| exact Hrun].
  destruct ((strip original =? "")%string && (strip chinese =? "")%string);
    simpl; [exact Hrun | reflexivity].
Qed.

(** X18.  After a series of [update_subtitle] calls the queue of a
    running window has gained, in the order of the calls, the stripped
    texts of exactly those calls that are not blank once stripped; a
    window that is not running queues nothing. *)
Theorem window_queues_nonblank_updates :
  forall strip calls d,
    Display.update_queue (show strip calls d)
    = if Display.is_running d
      then Display.update_queue d
             ++ filter (fun u => negb (blank u)) (map (stripped strip) calls)
      else Display.update_queue d.
Proof.
  intros strip calls. unfold show.
  induction calls as [| [original chinese seconds] calls IH]; intros d.
  - simpl. destruct (Display.is_running d); [| reflexivity].
    rewrite List.app_nil_r. reflexivity.
  - cbn [fold_left]. rewrite IH, update_subtitle_running.
    unfold Display.update_subtitle.
    destruct (Display.is_running d) eqn:Hrun; cbn [negb]; [| reflexivity].
    unfold blank.
    cbn [map filter stripped Display.original_text Display.chinese_text].
    destruct ((strip original =? "")%string && (strip chinese =? "")%string);
      cbn [negb Display.update_queue].
    + reflexivity.
    + rewrite <- List.app_assoc. reflexivity.
Qed.

(** X19.  [_update_window_position] puts the window so that its left
    margin equals the right margin or is one pixel narrower, also when the
    window is wider than the screen (the margins are then negative), and
    so that its bottom edge is [position_y_offset] above the bottom of the
    screen. *)
Theorem window_is_centred :
  forall screen_width screen_height d,
    let '(x, y) := Display.window_position screen_width screen_height d in
    let right_margin := screen_width - (x + Display.window_width d) in
    0 <= right_margin - x <= 1 /\
    y + Display.window_height d + Display.position_y_offset d = screen_height.
Proof.
  intros screen_width screen_height d. unfold Display.window_position.
  cbv zeta. split; [| lia].
  pose proof (Z.div_mod (screen_width - Display.window_width d) 2) as Hdm.
  pose proof (Z.mod_pos_bound (screen_width - Display.window_width d) 2) as Hb.
  lia.
Qed.

(** * Keys and clients *)

(** X20.  [_load_api_keys] fails with [ValueError] exactly when
    DEEPGRAM_API_KEY is unset or empty.  When it succeeds, the polish
    client of the transcriber never has an empty key: it has the polish
    key with the configured base URL when the environment holds a
    non-empty polish key, and otherwise the Deepgram key with no base
    URL. *)
Theorem polish_client_falls_back_to_deepgram_key :
  forall getenv deepgram,
    ((exists e, Config.load_api_keys getenv deepgram = inr e /\
                exn_cls e = OtherCls "ValueError") <->
     Config.truthy (getenv "DEEPGRAM_API_KEY") = false) /\
    (forall k,
        Config.load_api_keys getenv deepgram = inl k ->
        getenv "DEEPGRAM_API_KEY" = Some (Config.api_key k) /\
        Config.api_key k <> "" /\
        Config.client_api_key (Config.initialize_polish_client k) <> "" /\
        (forall pk,
            Config.polish_api_key k = Some pk -> pk <> "" ->
            Config.initialize_polish_client k
            = Config.mkClient pk (Some (Config.polish_base_url k))) /\
        (Config.truthy (Config.polish_api_key k) = false ->
         Config.initialize_polish_client k
         = Config.mkClient (Config.api_key k) None)).
Proof.
  intros getenv deepgram. unfold Config.load_api_keys. split.
  - destruct (Config.truthy (getenv "DEEPGRAM_API_KEY")); simpl; split.
    + intros (e & He & _). discriminate He.
    + discriminate.
    + reflexivity.
    + intros _. eexists. split; reflexivity.
  - intros k Hk.
    destruct (getenv "DEEPGRAM_API_KEY") as [key |] eqn:Henv;
      [| discriminate Hk].
    simpl in Hk. destruct (key =? "")%string eqn:Hkey; [discriminate Hk |].
    simpl in Hk. inversion Hk; subst k; clear Hk. cbn [Config.api_key].
    apply String.eqb_neq in Hkey.
    unfold Config.initialize_polish_client, Config.polish_client,
      Config.key_or. cbn [Config.api_key Config.polish_api_key
                          Config.polish_base_url].
    set (pk := getenv _).
    split; [reflexivity |]. split; [exact Hkey |].
    destruct pk as [p |]; simpl.
    + destruct (p =? "")%string eqn:Hp; simpl.
      * repeat split; try assumption; try reflexivity.
        intros pk' Hpk Hne. inversion Hpk; subst.
        apply String.eqb_eq in Hp. contradiction.
      * apply String.eqb_neq in Hp.
        destruct (Config.get _ _ =? "")%string; simpl;
          repeat split; try assumption; try discriminate;
          intros pk' Hpk Hne; inversion Hpk; subst; reflexivity.
    + repeat split; try assumption; try reflexivity.
      intros pk' Hpk. discriminate Hpk.
Qed.

Lemma polish_client_falls_back_to_deepgram_key_witness :
  exists k,
    Config.load_api_keys only_deepgram_key (Some Config.default_deepgram)
      = inl k /\
    Config.initialize_polish_client k = Config.mkClient "dg-key" None.
Proof.
  destruct (polish_client_falls_back_to_deepgram_key only_deepgram_key
              (Some Config.default_deepgram)) as [_ Hkeys].
  eexists. split; [reflexivity |].
  destruct (Hkeys _ eq_refl) as (_ & _ & _ & _ & Hfallback).
  exact (Hfallback eq_refl).
Defined.

(** * What reaches the transcription callback *)

Lemma shown_results_app (a b : list effect) :
  shown_results (a ++ b) = shown_results a ++ shown_results b.
Proof.
  induction a as [| e a IH]; simpl; [reflexivity |].
  destruct e; simpl; rewrite IH; reflexivity.
Qed.

Lemma shown_error_callback (s : transcriber) (msg : string) :
  shown_results (error_callback s msg) = [].
Proof. unfold error_callback. destruct (has_error_callback s); reflexivity. Qed.

(** The only result a reconnection passes on is the synthetic one. *)
Lemma reconnect_loop_shown (clk : Clock) (net : list open_outcome) :
  forall s,
    Forall (fun r => r = reconnect_result clk)
      (shown_results (snd (fst (reconnect_loop clk net s)))).
Proof.
  induction net as [| o net IH]; intros s.
  - simpl. destruct (is_running s && _); constructor.
  - simpl.
    destruct (is_running s && (reconnect_attempts s <? max_reconnect_attempts));
      [| constructor].
    destruct o as [e | e | [|]]; destruct (connection s); simpl;
      try (destruct (_ >=? max_reconnect_attempts); simpl;
           [rewrite ?shown_error_callback; constructor
           | match goal with
             | |- context [reconnect_loop clk net ?x] =>
                 specialize (IH x);
                 destruct (reconnect_loop clk net x) as [[s2 es2] p2]
             end; exact IH]);
      unfold transcription_callback;
      destruct (has_transcription_callback _); simpl;
      repeat constructor.
Qed.

Lemma on_transcript_shown (clk : Clock) (result : option LiveResult)
    (s : transcriber) (r : TranscriptionResult) :
  In r (shown_results (snd (on_transcript clk result s))) ->
  is_final r = false /\ chinese_translation r = "" /\ original_text r <> "".
Proof.
  unfold on_transcript.
  destruct result as [lr |]; [| intros []].
  destruct (alternatives lr) as [| alt rest].
  - simpl. rewrite shown_error_callback. intros [].
  - destruct (transcript alt =? "")%string eqn:Htext; [intros [] |].
    apply String.eqb_neq in Htext.
    destruct (interim_results s && negb (lr_is_final lr)).
    + cbv zeta. unfold transcription_callback.
      cbn [has_transcription_callback set_pending_text].
      destruct (_ >=? translation_threshold);
        cbn [snd main_loop set_last_translation_time set_pending_text];
        destruct (has_transcription_callback s); try destruct (main_loop s);
        simpl; intros H; try contradiction;
        repeat (destruct H as [H | H]; try contradiction);
        subst r; repeat split; assumption.
    + destruct (lr_is_final lr); [| intros []].
      cbn [snd main_loop set_last_translation_time set_pending_text].
      destruct (main_loop s); intros [].
Qed.

Lemma polish_complete_shown (c : completion) (item : Submission)
    (s : transcriber) (r : TranscriptionResult) :
  In r (shown_results (snd (fst (polish_complete c item s)))) ->
  is_final r = true.
Proof.
  unfold polish_complete.
  destruct (polish_transcription_result c (sub_text item)
              (sub_language item) (sub_timestamp item) s)
    as (r' & Hr' & Hfinal & _).
  destruct (polish_transcription c _ _ _ s) as [s1 result].
  simpl in Hr'. subst result.
  destruct (loop_head s1) as [s2 st]. simpl.
  unfold transcription_callback.
  destruct (has_transcription_callback s1); simpl;
    [intros [<- | []]; exact Hfinal | intros []].
Qed.

Lemma step_shown (ev : event) (sys : system) (r : TranscriptionResult) :
  In r (shown_results (snd (step ev sys))) ->
  is_final r = false ->
  chinese_translation r = "" /\ original_text r <> "".
Proof.
  destruct sys as [s st]. destruct ev; simpl.
  - intros [].
  - intros [].
  - destruct o as [e | e | [|]]; simpl;
      rewrite ?shown_error_callback; intros [].
  - unfold stop. simpl.
    destruct (connection s); simpl; destruct (polish_task s); intros [].
  - intros [].
  - unfold on_error. simpl.
    destruct (is_running s && main_loop s && negb (is_reconnecting s));
      intros [].
  - unfold on_close, on_error. simpl.
    destruct (is_running s && main_loop s && negb (is_reconnecting s));
      intros [].
  - intros Hin Hinterim.
    assert (Hsyn : r = reconnect_result clk).
    { unfold reconnect in Hin.
      destruct (is_reconnecting s || negb (is_running s));
        [simpl in Hin; contradiction |].
      pose proof (reconnect_loop_shown clk net (set_is_reconnecting true s))
        as Hall.
      destruct (reconnect_loop clk net _) as [[s' es] p]. simpl in Hin, Hall.
      rewrite List.Forall_forall in Hall. exact (Hall r Hin). }
    subst r. discriminate Hinterim.
  - unfold send_audio.
    destruct (connection s && is_running s && connection_ready s);
      [destruct raised |]; simpl; rewrite ?shown_error_callback; intros [].
  - unfold transcript_event.
    pose proof (on_transcript_shown clk result s r) as Hon.
    destruct (on_transcript clk result s) as [s1 es]. simpl in Hon |- *.
    intros Hin _. destruct (Hon Hin) as (_ & Ht & Ho). split; assumption.
  - destruct (consumer_wake st s) as [s' st']. intros [].
  - destruct st as [| | | item |]; try (intros []; fail).
    pose proof (polish_complete_shown c item s r) as Hfin.
    destruct (polish_complete c item s) as [[s' es] st']. simpl in Hfin |- *.
    intros Hin Hinterim. rewrite (Hfin Hin) in Hinterim. discriminate Hinterim.
Qed.

(** X21.  Whatever happens to a transcriber, a result it passes to the
    transcription callback marked not final has an empty translation and
    a non-empty text: translations only ever arrive on results marked
    final. *)
Theorem interim_results_carry_no_translation :
  forall evs sys r,
    In r (shown_results (snd (run evs sys))) ->
    is_final r = false ->
    chinese_translation r = "" /\ original_text r <> "".
Proof.
  induction evs as [| ev evs IH]; intros sys r Hin Hinterim;
    [contradiction |].
  simpl in Hin.
  pose proof (step_shown ev sys r) as Hstep.
  destruct (step ev sys) as [sys1 es].
  specialize (IH sys1 r).
  destruct (run evs sys1) as [sys2 es']. simpl in *.
  rewrite shown_results_app in Hin. apply List.in_app_or in Hin as [Hin | Hin].
  - exact (Hstep Hin Hinterim).
  - exact (IH Hin Hinterim).
Qed.

Lemma interim_results_carry_no_translation_witness :
  shown_results
    (snd (run [EvTranscript noon_300ms (Some (fragment "hello world" false))]
            (heard_hel, Waiting)))
  = [mkResult "multi" "hello world" "" "12:00:00" false] /\
  chinese_translation (mkResult "multi" "hello world" "" "12:00:00" false)
  = "".
Proof.
  split; [reflexivity |].
  destruct (interim_results_carry_no_translation
              [EvTranscript noon_300ms (Some (fragment "hello world" false))]
              (heard_hel, Waiting)
              (mkResult "multi" "hello world" "" "12:00:00" false))
    as [Hnone _].
  - left. reflexivity.
  - reflexivity.
  - exact Hnone.
Defined.

(** * What is on the polish queue *)

Lemma reconnect_loop_queue (clk : Clock) (net : list open_outcome) :
  forall s,
    polish_queue (fst (fst (reconnect_loop clk net s))) = polish_queue s.
Proof.
  induction net as [| o net IH]; intros s.
  - simpl. destruct (is_running s && _); reflexivity.
  - simpl.
    destruct (is_running s && (reconnect_attempts s <? max_reconnect_attempts));
      [| reflexivity].
    destruct o as [e | e | [|]]; destruct (connection s); simpl;
      try reflexivity;
      (destruct (_ >=? max_reconnect_attempts); simpl;
       [reflexivity
       | match goal with
         | |- context [reconnect_loop clk net ?x] =>
             specialize (IH x);
             destruct (reconnect_loop clk net x) as [[s2 es2] p2]
         end; exact IH]).
Qed.

Lemma transcript_event_queue (clk : Clock) (result : option LiveResult)
    (s : transcriber) :
  polish_queue (fst (transcript_event clk result s)) = polish_queue s \/
  exists item,
    sub_text item <> "" /\
    polish_queue (fst (transcript_event clk result s))
    = polish_queue s ++ [Some item].
Proof.
  unfold transcript_event, on_transcript.
  destruct result as [r |]; [| left; reflexivity].
  destruct (alternatives r) as [| alt rest] eqn:Halt.
  - unfold error_callback. destruct (has_error_callback s); left; reflexivity.
  - destruct (transcript alt =? "")%string eqn:Htext; [left; reflexivity |].
    apply String.eqb_neq in Htext.
    destruct s as [lang interim conn running ready loop attempts recon
                   tcb ecb recent pending last queue task].
    unfold transcription_callback.
    cbn -[Z.geb Z.sub translation_threshold].
    destruct interim, (lr_is_final r); cbn -[Z.geb Z.sub translation_threshold];
      try (destruct (_ >=? translation_threshold));
      destruct loop, tcb; cbn; unfold queue_for_polish; rewrite ?Halt; cbn;
        try (left; reflexivity);
        right; eexists; (split; [| reflexivity]); exact Htext.
Qed.

Lemma take_item_ok (sentinel : bool) (s : transcriber) :
  Forall (entry_ok sentinel) (polish_queue s) ->
  queue_ok sentinel (take_item s).
Proof.
  intros Hq. unfold take_item, queue_ok.
  destruct (polish_queue s) as [| [item |] q] eqn:Heq; simpl.
  - rewrite Heq. split; [constructor | exact I].
  - inversion Hq; subst. split; assumption.
  - inversion Hq; subst. split; [assumption | exact I].
Qed.

Lemma loop_head_ok (sentinel : bool) (s : transcriber) :
  Forall (entry_ok sentinel) (polish_queue s) ->
  queue_ok sentinel (loop_head s).
Proof.
  intros Hq. unfold loop_head.
  destruct (is_running s); [now apply take_item_ok |].
  split; [exact Hq | exact I].
Qed.

Lemma step_queue_ok (sentinel : bool) (ev : event) (sys : system) :
  sentinel = true \/ ev <> EvStop ->
  queue_ok sentinel sys ->
  queue_ok sentinel (fst (step ev sys)).
Proof.
  destruct sys as [s st]. intros Hallowed [Hq Hst]. simpl in Hq, Hst.
  destruct ev; simpl.
  - split; assumption.
  - split; assumption.
  - destruct o as [e | e | [|]]; split; simpl; try assumption; exact I.
  - destruct Hallowed as [-> | Hne]; [| contradiction].
    unfold stop. simpl.
    assert (Hsentinel : Forall (entry_ok true) (polish_queue s ++ [None])).
    { apply List.Forall_app. split; [assumption |].
      constructor; [reflexivity | constructor]. }
    destruct (connection s); simpl; destruct (polish_task s);
      split; simpl; assumption.
  - split; assumption.
  - unfold on_error. simpl.
    destruct (is_running s && main_loop s && negb (is_reconnecting s));
      split; assumption.
  - unfold on_close, on_error. simpl.
    destruct (is_running s && main_loop s && negb (is_reconnecting s));
      split; assumption.
  - assert (Hsame : polish_queue (fst (fst (reconnect clk net s)))
                    = polish_queue s).
    { unfold reconnect.
      destruct (is_reconnecting s || negb (is_running s)); [reflexivity |].
      rewrite reconnect_loop_queue. reflexivity. }
    destruct (reconnect clk net s) as [[s' es] p]. simpl in Hsame |- *.
    split; simpl; [rewrite Hsame |]; assumption.
  - unfold send_audio.
    destruct (connection s && is_running s && connection_ready s);
      [destruct raised |]; split; assumption.
  - pose proof (transcript_event_queue clk result s) as Hadd.
    destruct (transcript_event clk result s) as [s' es]. simpl in Hadd |- *.
    split; simpl; [| assumption].
    destruct Hadd as [-> | (item & Htext & ->)]; [assumption |].
    apply List.Forall_app. split; [assumption |].
    constructor; [exact Htext | constructor].
  - assert (Hwake : queue_ok sentinel (consumer_wake st s)).
    { destruct st; simpl.
      - split; [assumption | exact I].
      - now apply loop_head_ok.
      - now apply take_item_ok.
      - split; assumption.
      - split; [assumption | exact I]. }
    destruct (consumer_wake st s) as [s' st']. exact Hwake.
  - destruct st as [| | | item |]; try (split; assumption).
    unfold polish_complete.
    destruct (polish_transcription_reads c (sub_text item)
                (sub_language item) (sub_timestamp item) s)
      as (_ & Hq1 & _).
    destruct (polish_transcription c _ _ _ s) as [s1 result]. simpl in Hq1.
    assert (Hl : queue_ok sentinel (loop_head s1)).
    { apply loop_head_ok. rewrite Hq1. exact Hq. }
    destruct (loop_head s1) as [s2 st2]. exact Hl.
Qed.

Lemma run_queue_ok (sentinel : bool) (evs : list event) :
  forall sys,
    sentinel = true \/ ~ In EvStop evs ->
    queue_ok sentinel sys ->
    queue_ok sentinel (fst (run evs sys)).
Proof.
  induction evs as [| ev evs IH]; intros sys Hallowed Hsys; [exact Hsys |].
  simpl.
  assert (Hstep : queue_ok sentinel (fst (step ev sys))).
  { apply step_queue_ok; [| exact Hsys].
    destruct Hallowed as [-> | Hno]; [left; reflexivity |].
    right. intros ->. apply Hno. left. reflexivity. }
  destruct (step ev sys) as [sys1 es].
  specialize (IH sys1).
  destruct (run evs sys1) as [sys2 es']. apply IH; [| exact Hstep].
  destruct Hallowed as [-> | Hno]; [left; reflexivity |].
  right. intros Hin. apply Hno. right. exact Hin.
Qed.

(** X22.  From a new transcriber, whatever events follow one another,
    every submission on the polish queue and the submission whose request
    is in flight have a non-empty text: the polishing service is never
    asked about an empty transcript. *)
Theorem submissions_have_text :
  forall lang interim evs,
    let sys := fst (run evs (init lang interim, NoTask)) in
    (forall item, In (Some item) (polish_queue (fst sys)) ->
                  sub_text item <> "") /\
    (forall item, snd sys = InFlight item -> sub_text item <> "").
Proof.
  intros lang interim evs sys.
  assert (Hok : queue_ok true sys).
  { apply run_queue_ok; [left; reflexivity |]. split; [constructor | exact I]. }
  destruct Hok as [Hq Hst]. split.
  - intros item Hin. rewrite List.Forall_forall in Hq. exact (Hq _ Hin).
  - intros item Hfl. rewrite Hfl in Hst. exact Hst.
Qed.

(** X23.  The sentinel comes from [stop()] only: as long as [stop()] has
    not been called, there is no sentinel on the polish queue. *)
Theorem sentinel_only_from_stop :
  forall lang interim evs,
    ~ In EvStop evs ->
    ~ In None (polish_queue (fst (fst (run evs (init lang interim, NoTask))))).
Proof.
  intros lang interim evs Hno Hin.
  assert (Hok : queue_ok false (fst (run evs (init lang interim, NoTask)))).
  { apply run_queue_ok; [right; exact Hno |]. split; [constructor | exact I]. }
  destruct Hok as [Hq _]. rewrite List.Forall_forall in Hq.
  specialize (Hq None Hin). discriminate Hq.
Qed.

Lemma sentinel_only_from_stop_witness :
  exists queue,
    polish_queue
      (fst (fst (run (setup ++ [EvTranscript noon (Some (fragment "hel" false))])
                   (init "multi" true, NoTask)))) = queue /\
    ~ In None queue.
Proof.
  eexists. split; [reflexivity |].
  apply (sentinel_only_from_stop "multi" true
           (setup ++ [EvTranscript noon (Some (fragment "hel" false))])).
  intros Hin. repeat (destruct Hin as [Hin | Hin]; [discriminate Hin |]).
  exact Hin.
Defined.

(** X24.  When the capture loop fails while chunks are queued,
    [stop_capture] finds the capture not recording and returns at once:
    the queue is not cleared and [get_audio_data] still returns the
    chunks captured before the failure. *)
Theorem failed_capture_loop_keeps_queue :
  forall c chunk rest,
    Capture.audio_queue c = chunk :: rest ->
    let c' := capture_loop_failed c in
    Capture.stop_capture c' = c' /\
    snd (Capture.get_audio_data (Capture.stop_capture c')) = Some chunk.
Proof.
  intros c chunk rest Hq c'. subst c'.
  unfold Capture.stop_capture, capture_loop_failed. cbn [Capture.is_recording negb].
  split; [reflexivity |].
  unfold Capture.get_audio_data. cbn [Capture.audio_queue]. rewrite Hq.
  reflexivity.
Qed.

Lemma failed_capture_loop_keeps_queue_witness :
  snd (Capture.get_audio_data
         (Capture.stop_capture
            (capture_loop_failed
               (Capture.feed [[Byte.x01; Byte.x00]]
                  (fst (Capture.start_capture ascii_lower sample_devices
                          (Capture.init "BlackHole 2ch")))))))
  = Some [Byte.x01; Byte.x00].
Proof.
  destruct (failed_capture_loop_keeps_queue
              (Capture.feed [[Byte.x01; Byte.x00]]
                 (fst (Capture.start_capture ascii_lower sample_devices
                         (Capture.init "BlackHole 2ch"))))
              [Byte.x01; Byte.x00] [] eq_refl) as [_ Hstale].
  exact Hstale.
Defined.
